(** * Cobble: namespace resolution and Ninja file generation

    A shallow embedding of [cobble/project.py] and [cobble/output.py].

    Python [str] values are byte strings ([string]); dictionaries whose
    iteration order is observable ([subprojects], [packages], [targets],
    the product map returned by [evaluate]) are insertion-ordered
    association lists; dictionaries that are only looked up or iterated
    through [sorted] ([ninja_rules], the collector's registries) are
    [gmap]s.  Exceptions are values of [exn]; a ['%'] format is kept as its
    template together with the arguments it is applied to.

    The two modules use classes defined in [cobble/target], [cobble/env]
    and [cobble/ninja_syntax].  Of those, the embedding keeps what the two
    modules read: of a target its name, identifier, [concrete] flag and the
    outcome of [evaluate(None)]; of a product the dictionaries yielded by
    [ninja_dicts()]; of an environment its digest and readout; of the
    writer the sequence of calls made on it. *)

From stdpp Require Import gmap strings list fin_maps sorting.
From Stdlib Require Import Ascii.

(** ** Python string primitives *)

Module Py.

(** [s.startswith(pre)] *)
Fixpoint startswith (pre s : string) : bool :=
  match pre, s with
  | "", _ => true
  | String a pre', String b s' =>
      if decide (a = b) then startswith pre' s' else false
  | String _ _, "" => false
  end.

(** [sub in s] *)
Fixpoint contains (sub s : string) : bool :=
  startswith sub s ||
  match s with
  | "" => false
  | String _ s' => contains sub s'
  end.

(** [s.split(sep)] for a non-empty [sep]: left-to-right, non-overlapping.
    [skip] counts the characters of a matched separator still to be
    consumed. *)
Fixpoint split_go (sep : string) (skip : nat) (s : string) : list string :=
  match s with
  | "" => [""]
  | String c s' =>
      match skip with
      | S k => split_go sep k s'
      | O =>
          if startswith sep s
          then "" :: split_go sep (String.length sep - 1) s'
          else match split_go sep 0 s' with
               | h :: t => String c h :: t
               | [] => [String c ""]
               end
      end
  end.

Definition split (sep s : string) : list string := split_go sep 0 s.

(** [s.count(sub)] for a non-empty [sub]: non-overlapping occurrences. *)
Fixpoint count_go (sub : string) (skip : nat) (s : string) : nat :=
  match s with
  | "" => 0
  | String c s' =>
      match skip with
      | S k => count_go sub k s'
      | O =>
          if startswith sub s
          then S (count_go sub (String.length sub - 1) s')
          else count_go sub 0 s'
      end
  end.

Definition count (sub s : string) : nat := count_go sub 0 s.

(** [s.rfind(c)] for a one-character [c]; [-1] when absent. *)
Fixpoint rfind (c : ascii) (s : string) : Z :=
  match s with
  | "" => -1
  | String a s' =>
      let r := rfind c s' in
      if (0 <=? r)%Z then (r + 1)%Z
      else if decide (a = c) then 0%Z else (-1)%Z
  end.

(** [s[i:]] for [0 <= i] *)
Fixpoint slice_from (i : nat) (s : string) : string :=
  match i, s with
  | O, _ => s
  | S i', String _ s' => slice_from i' s'
  | S _, "" => ""
  end.

(** [s.endswith(c)] for a one-character [c] *)
Fixpoint endswith_char (c : ascii) (s : string) : bool :=
  match s with
  | "" => false
  | String a "" => bool_decide (a = c)
  | String _ s' => endswith_char c s'
  end.

End Py.

(** ** [posixpath] *)

Module Path.

(** [os.path.basename(p)]: [i = p.rfind('/') + 1; return p[i:]] *)
Definition basename (p : string) : string :=
  Py.slice_from (Z.to_nat (Py.rfind "/"%char p + 1)) p.

(** One round of the loop of [os.path.join]. *)
Definition join1 (path b : string) : string :=
  if Py.startswith "/" b then b
  else if bool_decide (path = "") || Py.endswith_char "/"%char path
       then path +:+ b
       else path +:+ "/" +:+ b.

(** [os.path.join(a, *parts)] *)
Definition join (a : string) (parts : list string) : string :=
  foldl join1 a parts.

End Path.

(** ** Exceptions *)

(** An argument of a ['%'] format: [%s] of a string, [%r] of a string,
    [%r] of a frozenset of strings. *)
Inductive fmt_arg :=
  | FmtS (v : string)
  | FmtR (v : string)
  | FmtRSet (v : gset string).

Inductive exn :=
  | AssertionError (template : string) (args : list fmt_arg)
  | Exception (template : string) (args : list fmt_arg)
  | ValueError (msg : string)
  | RecursionError
  | EvaluationError (msg : string).

Inductive result (A : Type) :=
  | Ok (a : A)
  | Raise (e : exn).
Arguments Ok {A} a.
Arguments Raise {A} e.

Global Instance result_ret : MRet result := fun A a => Ok a.
Global Instance result_bind : MBind result := fun A B k r =>
  match r with
  | Ok a => k a
  | Raise e => Raise e
  end.

Definition is_ok {A} (r : result A) : bool :=
  match r with
  | Ok _ => true
  | Raise _ => false
  end.

Global Instance fmt_arg_eq_dec : EqDecision fmt_arg.
Proof. solve_decision. Defined.
Global Instance exn_eq_dec : EqDecision exn.
Proof. solve_decision. Defined.

(** ** Insertion-ordered dictionaries *)

Definition odict (V : Type) : Type := list (string * V).

Fixpoint od_get {V} (d : odict V) (k : string) : option V :=
  match d with
  | [] => None
  | (k', v) :: d' => if decide (k' = k) then Some v else od_get d' k
  end.

Definition od_values {V} (d : odict V) : list V := snd <$> d.

(** ** Build steps, environments and targets *)

(** A low-level rule: the keyword arguments of [Writer.rule]. *)
Abbreviation Rule := (gmap string string).

(** The dictionary a product hands to [Writer.build]. *)
Record NinjaDict := mkNinjaDict {
  outputs : list string;
  rule : string;
  inputs : option (list string);
  implicit : option (list string);
  order_only : option (list string);
  variables : option (gmap string string);
}.

Global Instance NinjaDict_eq_dec : EqDecision NinjaDict.
Proof. solve_decision. Defined.

(** What the emitter reads of an environment: its digest and its readout
    (each value already in its [%r] form). *)
Record Env := mkEnv {
  digest : string;
  readout_all : list (string * string);
}.

Record Product := mkProduct {
  ninja_dicts : list NinjaDict;
}.

(** One entry of the product map returned by [Target.evaluate]: the key
    [(target, env)], of which the emitter reads only [target.ident] and
    [env], and the products. *)
Record ProductEntry := mkProductEntry {
  pe_ident : string;
  pe_env : option Env;
  pe_products : list Product;
}.

(** What the namespace layer and the emitter read of a target.
    [evaluate] is the outcome of [target.evaluate(None)]: the product map,
    or the exception it raised. *)
Record Target := mkTarget {
  name : string;
  ident : string;
  concrete : bool;
  evaluate : result (list ProductEntry);
}.

Record Package := mkPackage {
  relpath : string;
  targets : odict Target;
}.

#[local] Unset Elimination Schemes.
Inductive Project := mkProject {
  root : string;
  build_dir : string;
  alias : string;
  subprojects : odict Project;
  packages : odict Package;
  ninja_rules : gmap string Rule;
}.
#[local] Set Elimination Schemes.

(** ** [class Project] *)

(** The rule every project starts with. *)
Definition cobble_symlink_product : Rule :=
  {[ "command" := "ln -sf $target $out"; "description" := "SYMLINK $out" ]}.

(** [Project.__init__] *)
Definition Project_init (root build_dir alias : string) : Project :=
  {| root := root; build_dir := build_dir; alias := alias;
     subprojects := []; packages := [];
     ninja_rules := {[ "cobble_symlink_product" := cobble_symlink_product ]} |}.

(** [Project.inpath] *)
Definition Project_inpath (self : Project) (parts : list string) : string :=
  Path.join (root self) parts.

(** [next(filter(None, l), None)] *)
Fixpoint first_some {A} (l : list (option A)) : option A :=
  match l with
  | [] => None
  | Some a :: _ => Some a
  | None :: l' => first_some l'
  end.

(** [Project.find_project] *)
Fixpoint find_project (self : Project) (a : string) : option Project :=
  if bool_decide (a = "") || bool_decide (a = alias self) then Some self
  else
    let possible_projects :=
      map (fun kp => find_project (snd kp) a) (subprojects self) in
    first_some possible_projects.

(** Lines 91-100 of [Project.find_target]: the package path and the target
    name of the part after ['//']. *)
Definition split_package_and_target (ident package_and_target : string)
    : result (string * string) :=
  let colons_in_remainder := Py.count ":" package_and_target in
  match colons_in_remainder with
  | 0 => Ok (package_and_target, Path.basename package_and_target)
  | 1 =>
      match Py.split ":" package_and_target with
      | [pkg_path; target_name] => Ok (pkg_path, target_name)
      | _ => Raise (ValueError "unpack")
      end
  | _ => Raise (Exception "Too many colons in identifier: %r" [FmtR ident])
  end.

(** Lines 102-107 of [Project.find_target]. *)
Definition lookup_target (self : Project) (ident pkg_path target_name : string)
    : result Target :=
  match od_get (packages self) pkg_path with
  | None =>
      Raise (AssertionError "Reference to unknown package: %r" [FmtR ident])
  | Some pkg =>
      match od_get (targets pkg) target_name with
      | None =>
          Raise (AssertionError "Target %s not found in package %s"
                   [FmtS target_name; FmtS (alias self +:+ "//" +:+ pkg_path)])
      | Some t => Ok t
      end
  end.

(** Lines 91-107: resolution inside [self]. *)
Definition resolve_in_project (self : Project)
    (ident package_and_target : string) : result Target :=
  '(pkg_path, target_name) ←
    split_package_and_target ident package_and_target;
  lookup_target self ident pkg_path target_name.

(** [Project.find_target].  The recursive call of line 89 is bounded by
    [fuel]; [find_target] runs it with the interpreter's default limit. *)
Fixpoint find_target_fuel (fuel : nat) (self : Project) (ident : string)
    : result Target :=
  match fuel with
  | O => Raise RecursionError
  | S fuel' =>
      if negb (Py.contains "//" ident)
      then Raise (AssertionError "Expected absolute identifier: %r" [FmtR ident])
      else
        match Py.split "//" ident with
        | [al; package_and_target] =>
            if negb (bool_decide (al = "")) then
              match find_project self al with
              | None =>
                  Raise (AssertionError "No project with alias %r" [FmtR al])
              | Some project =>
                  find_target_fuel fuel' project ("//" +:+ package_and_target)
              end
            else resolve_in_project self ident package_and_target
        | _ => Raise (ValueError "unpack")
        end
  end.

Definition find_target : Project → string → result Target :=
  find_target_fuel 1000.

(** ** [class Package]

    A package refers back to its owning project ([self.project]); the
    functions below take that project as [project]. *)

(** [Package.inpath] *)
Definition Package_inpath (project : Project) (self : Package)
    (parts : list string) : string :=
  Project_inpath project (relpath self :: parts).

(** [Package.make_absolute] *)
Definition make_absolute (project : Project) (self : Package) (ident : string)
    : result string :=
  if Py.startswith ":" ident
  then Ok (alias project +:+ "//" +:+ relpath self +:+ ident)
  else if Py.startswith "//" ident then Ok (alias project +:+ ident)
  else if Py.contains "//" ident then Ok ident
  else Raise (Exception "Unexpected ident: %r" [FmtR ident]).

(** [Package.find_target] *)
Definition Package_find_target (project : Project) (self : Package)
    (ident : string) : result Target :=
  if Py.startswith ":" ident
  then find_target project (alias project +:+ "//" +:+ relpath self +:+ ident)
  else find_target project ident.

(** [Project.add_ninja_rules]: the loop over [rules.items()], threading
    [self.ninja_rules].  The registry reached when an assertion fails is
    returned too: entries inserted before the failure stay. *)
Fixpoint add_ninja_rules (registry : gmap string Rule) (rules : odict Rule)
    : gmap string Rule * result unit :=
  match rules with
  | [] => (registry, Ok ())
  | (k, v) :: rules' =>
      match registry !! k with
      | Some v0 =>
          if decide (v = v0) then add_ninja_rules registry rules'
          else (registry,
                Raise (AssertionError
                         "ninja rule %s defined incompatibly in multiple places"
                         [FmtS k]))
      | None => add_ninja_rules (<[k := v]> registry) rules'
      end
  end.

Definition set_ninja_rules (self : Project) (registry : gmap string Rule)
    : Project :=
  {| root := root self; build_dir := build_dir self; alias := alias self;
     subprojects := subprojects self; packages := packages self;
     ninja_rules := registry |}.

Definition Project_add_ninja_rules (self : Project) (rules : odict Rule)
    : Project * result unit :=
  let '(registry, r) := add_ninja_rules (ninja_rules self) rules in
  (set_ninja_rules self registry, r).

(** [Project.files] *)
Definition files (self : Project) : list string :=
  Project_inpath self ["BUILD.conf"] ::
  map (fun p => Package_inpath self p ["BUILD"]) (od_values (packages self)).

(** [Project.targets] *)
Definition Project_targets (self : Project) : list Target :=
  flat_map (fun p => od_values (targets p)) (od_values (packages self)).

(** [Project.concrete_targets] *)
Definition concrete_targets (self : Project) : list Target :=
  filter (fun t => concrete t = true) (Project_targets self).

(** ** [cobble/output.py] *)

(** [sorted] on strings, and on [(key, value)] pairs with
    [key = lambda kv: kv[0]]. *)
Definition key_le {V} (a b : string * V) : Prop := String.le a.1 b.1.

Global Instance key_le_dec {V} : RelDecision (@key_le V).
Proof. intros a b. unfold key_le. apply _. Defined.

Definition sorted_strings (l : list string) : list string :=
  merge_sort String.le l.

Definition sorted_items {V} (l : list (string * V)) : list (string * V) :=
  merge_sort key_le l.

(** [_get_subproject_files]: [subproject_files] maps an alias to the files
    of the first project visited under it. *)
Fixpoint _get_subproject_files (p : Project)
    (subproject_files : odict (list string)) : odict (list string) :=
  let subproject_files :=
    foldl (fun acc kq => _get_subproject_files (snd kq) acc)
          subproject_files (subprojects p) in
  match od_get subproject_files (alias p) with
  | None => subproject_files ++ [(alias p, files p)]
  | Some _ => subproject_files
  end.

(** [_get_project_files] *)
Definition _get_project_files (project : Project) : list string :=
  sorted_strings (concat (od_values (_get_subproject_files project []))).

(** A call on the [ninja_syntax.Writer]; the script is the writer's
    rendering of the calls, in order. *)
Inductive WriterCall :=
  | W_comment (text : string) (wrap : bool)
  | W_newline
  | W_rule (name : string) (attrs : Rule)
  | W_build (d : NinjaDict).

Global Instance WriterCall_eq_dec : EqDecision WriterCall.
Proof. solve_decision. Defined.

(** Lines 30-36. *)
Definition write_header (project : Project) : list WriterCall :=
  [ W_comment "Generated using 'cobble init', do NOT edit by hand" true;
    W_comment ("project_path=" +:+ root project) true;
    W_newline ].

Definition cobble_generate_ninja (project : Project) : Rule :=
  {[ "command" := "./cobble init --reinit " +:+ root project;
     "description" := "(cobbling something together)" ]}.

Definition regeneration_step (project : Project) : NinjaDict :=
  {| outputs := ["build.ninja"];
     rule := "cobble_generate_ninja";
     inputs := None;
     implicit := Some (_get_project_files project);
     order_only := None;
     variables := None |}.

(** Lines 38-52. *)
Definition write_regeneration (project : Project) : list WriterCall :=
  [ W_comment "Automatic regeneration" true;
    W_rule "cobble_generate_ninja" (cobble_generate_ninja project);
    W_build (regeneration_step project);
    W_newline ].

(** Lines 54-59. *)
Definition write_rules (project : Project) : list WriterCall :=
  flat_map (fun kv => [W_rule kv.1 kv.2; W_newline])
           (sorted_items (map_to_list (ninja_rules project))).

(** The three registries of the first product pass. *)
Record Collector := mkCollector {
  unique_products_by_target : gmap string (gmap string (list NinjaDict));
  unique_products_by_output : gmap (gset string) NinjaDict;
  environments_by_digest : odict (option Env);
}.

Definition empty_collector : Collector :=
  {| unique_products_by_target := ∅;
     unique_products_by_output := ∅;
     environments_by_digest := [] |}.

(** [d[k] = v] on an insertion-ordered dictionary. *)
Fixpoint od_set {V} (d : odict V) (k : string) (v : V) : odict V :=
  match d with
  | [] => [(k, v)]
  | (k', v') :: d' =>
      if decide (k' = k) then (k, v) :: d' else (k', v') :: od_set d' k v
  end.

(** A loop whose body may raise. *)
Fixpoint foldM {S A} (f : S → A → result S) (s : S) (l : list A) : result S :=
  match l with
  | [] => Ok s
  | a :: l' => s' ← f s a; foldM f s' l'
  end.

Definition output_key (d : NinjaDict) : gset string := list_to_set (outputs d).

(** Lines 88-95: one [ninja_dict], against the output registry and the
    [flat] list of the entry being processed. *)
Definition collect_dict (st : gmap (gset string) NinjaDict * list NinjaDict)
    (ninja_dict : NinjaDict)
    : result (gmap (gset string) NinjaDict * list NinjaDict) :=
  let '(by_output, flat) := st in
  match by_output !! output_key ninja_dict with
  | Some prev_dict =>
      if decide (prev_dict = ninja_dict) then Ok (by_output, flat)
      else Raise (AssertionError "Conflicting rules produce outputs %r"
                    [FmtRSet (output_key ninja_dict)])
  | None =>
      Ok (<[output_key ninja_dict := ninja_dict]> by_output,
          flat ++ [ninja_dict])
  end.

(** Lines 86-95. *)
Definition collect_products (by_output : gmap (gset string) NinjaDict)
    (products : list Product)
    : result (gmap (gset string) NinjaDict * list NinjaDict) :=
  foldM (fun st prod => foldM collect_dict st (ninja_dicts prod))
        (by_output, []) products.

Definition env_digest (env : option Env) : string :=
  match env with
  | Some e => digest e
  | None => "top"
  end.

(** Lines 77-98: one entry of a product map. *)
Definition collect_entry (c : Collector) (entry : ProductEntry)
    : result Collector :=
  let ti := pe_ident entry in
  let ed := env_digest (pe_env entry) in
  let envs := od_set (environments_by_digest c) ed (pe_env entry) in
  '(by_output, flat) ←
    collect_products (unique_products_by_output c) (pe_products entry);
  let by_target :=
    match flat with
    | [] => unique_products_by_target c
    | _ :: _ =>
        <[ti := <[ed := flat]>
                  (default ∅ (unique_products_by_target c !! ti))]>
          (unique_products_by_target c)
    end in
  Ok {| unique_products_by_target := by_target;
        unique_products_by_output := by_output;
        environments_by_digest := envs |}.

(** Lines 69-98: one concrete target. *)
Definition collect_target (c : Collector) (concrete_target : Target)
    : result Collector :=
  product_map ← evaluate concrete_target;
  foldM collect_entry c product_map.

(** Lines 64-98: the first product pass. *)
Definition collect (project : Project) : result Collector :=
  foldM collect_target empty_collector (concrete_targets project).

(** Lines 101-109. *)
Definition write_environments (c : Collector) : list WriterCall :=
  [ W_comment "ENVIRONMENT LISTING" true; W_newline ] ++
  flat_map
    (fun de =>
       match de.2 with
       | None => []
       | Some env =>
           [ W_comment ("Environment " +:+ de.1) true ] ++
           map (fun kv =>
                  W_comment ("env[" +:+ de.1 +:+ "][" +:+ kv.1 +:+ "] = "
                             +:+ kv.2) false)
               (readout_all env) ++
           [ W_newline ]
       end)
    (environments_by_digest c).

(** Lines 114-126: the body of the second-pass loop for one target. *)
Definition write_target (ti : string) (emap : gmap string (list NinjaDict))
    : list WriterCall :=
  let env_count := size emap in
  (if decide (env_count = 1)
   then [ W_comment ("---- target " +:+ ti) true ] else []) ++
  flat_map
    (fun kv =>
       (if decide (1 < env_count)
        then [ W_comment ("---- target " +:+ ti +:+ " @ " +:+ kv.1) true ]
        else []) ++
       map W_build kv.2 ++
       [ W_newline ])
    (sorted_items (map_to_list emap)).

(** Lines 111-126: the second product pass. *)
Definition write_products (c : Collector) : list WriterCall :=
  flat_map (fun kv => write_target kv.1 kv.2)
           (sorted_items (map_to_list (unique_products_by_target c))).

(** The file system: the content of each existing path, a script being
    held as the writer calls that produced it. *)
Abbreviation FS := (gmap string (list WriterCall)).

Definition tmp_path : string := ".build.ninja.tmp".
Definition final_path : string := "build.ninja".

(** [os.rename(src, dst)] for an existing [src] *)
Definition rename (src dst : string) (fs : FS) : FS :=
  match fs !! src with
  | Some content => <[dst := content]> (delete src fs)
  | None => fs
  end.

(** [write_ninja_files].  [open(..., 'w')] creates or truncates the
    temporary file; each writer call appends to it; an exception leaves the
    file system as it is at that point (the content of the temporary file
    being what the interpreter flushes when it drops the file object).
    Errors of the file system itself are not modelled. *)
Definition write_ninja_files (project : Project) (dump_environments : bool)
    (fs : FS) : FS * result unit :=
  let fs := <[tmp_path := []]> fs in
  let written :=
    write_header project ++ write_regeneration project ++ write_rules project in
  let fs := <[tmp_path := written]> fs in
  match collect project with
  | Raise e => (fs, Raise e)
  | Ok c =>
      let written :=
        written ++
        (if dump_environments then write_environments c else []) ++
        write_products c in
      let fs := <[tmp_path := written]> fs in
      (rename tmp_path final_path fs, Ok ())
  end.

(** ** Notions used to state the properties *)

(** The projects of a tree in depth-first order, a project before its
    subprojects. *)
Fixpoint projects_preorder (p : Project) : list Project :=
  p :: flat_map (fun kq => projects_preorder (snd kq)) (subprojects p).

(** The last component of a ['/']-separated path. *)
Definition last_component (path : string) : string :=
  default "" (last (Py.split "/" path)).

(** [repr(s)] of a string of printable ASCII characters other than quotes
    and backslashes; other strings are left unrendered. *)
Definition plain_char (c : ascii) : bool :=
  let n := nat_of_ascii c in
  (32 <=? n) && (n <=? 126) && negb (n =? 39) && negb (n =? 34)
  && negb (n =? 92).

Fixpoint all_plain (s : string) : bool :=
  match s with
  | "" => true
  | String c s' => plain_char c && all_plain s'
  end.

Definition py_repr (s : string) : option string :=
  if all_plain s then Some ("'" +:+ s +:+ "'") else None.

(** [repr] of a frozenset of at most one string; the order in which a
    larger set is printed is not modelled. *)
Definition py_repr_frozenset (v : gset string) : option string :=
  match elements v with
  | [] => Some "frozenset()"
  | [x] => r ← py_repr x; Some ("frozenset({" +:+ r +:+ "})")
  | _ => None
  end.

Definition arg_text (a : fmt_arg) : option string :=
  match a with
  | FmtS v => Some v
  | FmtR v => py_repr v
  | FmtRSet v => py_repr_frozenset v
  end.

(** [template % args] for [%s] and [%r] conversions. *)
Fixpoint format (template : string) (args : list fmt_arg) : option string :=
  match template with
  | "" => match args with [] => Some "" | _ :: _ => None end
  | String c rest =>
      match rest with
      | String d rest' =>
          if bool_decide (c = "%"%char)
             && (bool_decide (d = "s"%char) || bool_decide (d = "r"%char))
          then
            match args with
            | a :: args' =>
                t ← arg_text a; r ← format rest' args'; Some (t +:+ r)
            | [] => None
            end
          else String c <$> format rest args
      | "" => String c <$> format rest args
      end
  end.

(** The message of an exception. *)
Definition message (e : exn) : option string :=
  match e with
  | AssertionError template args | Exception template args =>
      format template args
  | ValueError msg | EvaluationError msg => Some msg
  | RecursionError => Some "maximum recursion depth exceeded"
  end.

(** The message of [e] contains the text [s]. *)
Definition names (e : exn) (s : string) : Prop :=
  ∃ m, message e = Some m ∧ Py.contains s m = true.

(** The projects of a tree, a project after its subprojects: the order in
    which [_get_subproject_files] visits them. *)
Fixpoint projects_postorder (p : Project) : list Project :=
  flat_map (fun kq => projects_postorder (snd kq)) (subprojects p) ++ [p].

(** The visit of one project by [_get_subproject_files]. *)
Definition visit_project (subproject_files : odict (list string))
    (p : Project) : odict (list string) :=
  match od_get subproject_files (alias p) with
  | None => subproject_files ++ [(alias p, files p)]
  | Some _ => subproject_files
  end.

(** Projects of the tree that bear the same alias have the same build
    files (they are one project, reached along several paths). *)
Definition alias_determines_files (project : Project) : Prop :=
  ∀ q1 q2, q1 ∈ projects_preorder project → q2 ∈ projects_preorder project →
           alias q1 = alias q2 → files q1 = files q2.

(** The dictionaries of the [build] calls of a script. *)
Definition builds_of (script : list WriterCall) : list NinjaDict :=
  omap (fun w => match w with W_build d => Some d | _ => None end) script.

(** What a run that collected [c] has written when it closes the writer. *)
Definition script (project : Project) (dump_environments : bool)
    (c : Collector) : list WriterCall :=
  write_header project ++ write_regeneration project ++ write_rules project ++
  (if dump_environments then write_environments c else []) ++
  write_products c.

(** The part of [collect_dict] that acts on the output registry. *)
Definition register (by_output : gmap (gset string) NinjaDict)
    (ninja_dict : NinjaDict) : result (gmap (gset string) NinjaDict) :=
  match by_output !! output_key ninja_dict with
  | Some prev_dict =>
      if decide (prev_dict = ninja_dict) then Ok by_output
      else Raise (AssertionError "Conflicting rules produce outputs %r"
                    [FmtRSet (output_key ninja_dict)])
  | None => Ok (<[output_key ninja_dict := ninja_dict]> by_output)
  end.

(** The dictionaries of [ds] that [collect_dict] appends to [flat]: those
    whose output key is not registered when they are met. *)
Fixpoint new_dicts (by_output : gmap (gset string) NinjaDict)
    (ds : list NinjaDict) : list NinjaDict :=
  match ds with
  | [] => []
  | d :: ds' =>
      match by_output !! output_key d with
      | Some _ => new_dicts by_output ds'
      | None => d :: new_dicts (<[output_key d := d]> by_output) ds'
      end
  end.

(** The build steps of a product-map entry, and of a sequence of entries,
    in the order the first pass meets them. *)
Definition entry_dicts (entry : ProductEntry) : list NinjaDict :=
  flat_map ninja_dicts (pe_products entry).

Definition observed (entries : list ProductEntry) : list NinjaDict :=
  flat_map entry_dicts entries.

(** The first step of [ds] whose outputs are the set [k]. *)
Definition first_with_key (k : gset string) (ds : list NinjaDict)
    : option NinjaDict :=
  head (filter (fun d => output_key d = k) ds).

(** Memoised evaluation: entries for one target identifier and one
    environment digest carry the same products. *)
Definition memoised (entries : list ProductEntry) : Prop :=
  ∀ e1 e2, e1 ∈ entries → e2 ∈ entries →
           pe_ident e1 = pe_ident e2 →
           env_digest (pe_env e1) = env_digest (pe_env e2) →
           pe_products e1 = pe_products e2.

Global Instance Env_eq_dec : EqDecision Env.
Proof. solve_decision. Defined.
Global Instance Product_eq_dec : EqDecision Product.
Proof. solve_decision. Defined.

Definition memoised_pair (e1 e2 : ProductEntry) : Prop :=
  pe_ident e1 = pe_ident e2 →
  env_digest (pe_env e1) = env_digest (pe_env e2) →
  pe_products e1 = pe_products e2.

Global Instance memoised_pair_dec e1 e2 : Decision (memoised_pair e1 e2).
Proof. unfold memoised_pair. apply _. Defined.

(** The same, as a check over the list. *)
Definition memoised_check (entries : list ProductEntry) : bool :=
  forallb (fun e1 => forallb (fun e2 => bool_decide (memoised_pair e1 e2))
                             entries)
          entries.

(** All the steps held by the target registry. *)
Definition all_flats (by_target : gmap string (gmap string (list NinjaDict)))
    : list NinjaDict :=
  map_to_list by_target ≫= (fun kv => map_to_list kv.2 ≫= snd).

(** The target registry after an entry that appended [flat]. *)
Definition record_flat (by_target : gmap string (gmap string (list NinjaDict)))
    (ti ed : string) (flat : list NinjaDict)
    : gmap string (gmap string (list NinjaDict)) :=
  match flat with
  | [] => by_target
  | _ :: _ => <[ti := <[ed := flat]> (default ∅ (by_target !! ti))]> by_target
  end.

(** What the first pass maintains, [seen] being the entries processed:
    every step of a processed entry is registered as itself; every group of
    the target registry belongs to a processed entry; the groups hold the
    registered steps, each once. *)
Definition collector_inv (seen : list ProductEntry) (c : Collector) : Prop :=
  (∀ e d, e ∈ seen → d ∈ entry_dicts e →
          unique_products_by_output c !! output_key d = Some d) ∧
  (∀ ti emap ed flat,
     unique_products_by_target c !! ti = Some emap → emap !! ed = Some flat →
     ∃ e, e ∈ seen ∧ pe_ident e = ti ∧ env_digest (pe_env e) = ed) ∧
  all_flats (unique_products_by_target c)
    ≡ₚ (map_to_list (unique_products_by_output c)).*2.

(** Strict order on strings, on pairs by their key, and on groups by
    target identifier, then environment digest. *)
Definition str_lt (a b : string) : Prop := String.le a b ∧ a ≠ b.

Definition key_lt {V} (a b : string * V) : Prop := str_lt a.1 b.1.

Definition group_lt (g1 g2 : string * string * list NinjaDict) : Prop :=
  str_lt g1.1.1 g2.1.1 ∨ (g1.1.1 = g2.1.1 ∧ str_lt g1.1.2 g2.1.2).

(** The groups of the target registry, [(identifier, digest, steps)], in
    the order of the second pass. *)
Definition target_groups (ti : string) (emap : gmap string (list NinjaDict))
    : list (string * string * list NinjaDict) :=
  (fun ef => (ti, ef.1, ef.2)) <$> sorted_items (map_to_list emap).

Definition groups (c : Collector) : list (string * string * list NinjaDict) :=
  sorted_items (map_to_list (unique_products_by_target c))
  ≫= fun kv => target_groups kv.1 kv.2.

(** The comment that announces a group: the identifier alone when the
    target has one group, the identifier and the digest otherwise. *)
Definition annotation (gs : list (string * string * list NinjaDict))
    (g : string * string * list NinjaDict) : WriterCall :=
  if decide (length (filter (fun g' => g'.1.1 = g.1.1) gs) = 1)
  then W_comment ("---- target " +:+ g.1.1) true
  else W_comment ("---- target " +:+ g.1.1 +:+ " @ " +:+ g.1.2) true.

Definition write_group (gs : list (string * string * list NinjaDict))
    (g : string * string * list NinjaDict) : list WriterCall :=
  annotation gs g :: map W_build g.2 ++ [W_newline].

(** Comments and blank lines. *)
Definition is_annotation (w : WriterCall) : Prop :=
  match w with
  | W_comment _ _ | W_newline => True
  | W_rule _ _ | W_build _ => False
  end.

(** The projects reachable from construction: by [add_ninja_rules],
    whether the call returns or raises, and by the other methods, which
    leave [ninja_rules] as it is. *)
Inductive constructed : Project → Prop :=
  | constructed_init r b a : constructed (Project_init r b a)
  | constructed_add p rules :
      constructed p → constructed (Project_add_ninja_rules p rules).1
  | constructed_other p p' :
      constructed p → ninja_rules p' = ninja_rules p → constructed p'.

(** ** Sample project trees *)

Module Sample.

Definition target (n id : string) : Target :=
  {| name := n; ident := id; concrete := false; evaluate := Ok [] |}.

(** Subproject [deep], holding package [x] with target [y]. *)
Definition deep : Project :=
  {| root := "/src/mid/deep"; build_dir := "/build"; alias := "deep";
     subprojects := [];
     packages := [("x", {| relpath := "x";
                           targets := [("y", target "y" "deep//x:y")] |})];
     ninja_rules := {[ "cobble_symlink_product" := cobble_symlink_product ]} |}.

Definition mid : Project :=
  {| root := "/src/mid"; build_dir := "/build"; alias := "mid";
     subprojects := [("deep", deep)];
     packages := [];
     ninja_rules := {[ "cobble_symlink_product" := cobble_symlink_product ]} |}.

Definition side : Project :=
  {| root := "/src/side"; build_dir := "/build"; alias := "side";
     subprojects := [];
     packages := [("x", {| relpath := "x"; targets := [] |})];
     ninja_rules := {[ "cobble_symlink_product" := cobble_symlink_product ]} |}.

(** Package [a/b] of the root project, with target [foo]. *)
Definition pkg_a_b : Package :=
  {| relpath := "a/b"; targets := [("foo", target "foo" "//a/b:foo")] |}.

(** Package [a] of the root project, without targets. *)
Definition pkg_a : Package := {| relpath := "a"; targets := [] |}.

Definition top : Project :=
  {| root := "/src"; build_dir := "/build"; alias := "ROOT";
     subprojects := [("mid", mid); ("side", side)];
     packages := [("a/b", pkg_a_b); ("a", pkg_a)];
     ninja_rules := {[ "cobble_symlink_product" := cobble_symlink_product ]} |}.

(** A library compiled once and linked into two binaries; a generated
    file built under the environment of each binary. *)
Definition env_lib : Env := {| digest := "0a"; readout_all := [("cc", "'gcc'")] |}.
Definition env_b1 : Env := {| digest := "b1"; readout_all := [("cxx", "'g++'")] |}.
Definition env_b2 : Env := {| digest := "b2"; readout_all := [("cxx", "'clang++'")] |}.

Definition step (outs : list string) (r : string) (ins : list string)
    : NinjaDict :=
  {| outputs := outs; rule := r; inputs := Some ins; implicit := None;
     order_only := None; variables := None |}.

Definition obj : NinjaDict := step ["foo.o"] "compile_c_obj" ["foo.c"].
Definition obj_cxx : NinjaDict := step ["foo.o"] "compile_cxx_obj" ["foo.cc"].
Definition obj_as : NinjaDict := step ["foo.o"] "assemble_obj_pp" ["foo.S"].
Definition gen_b1 : NinjaDict := step ["env/b1/gen.h"] "generate" ["gen.in"].
Definition gen_b2 : NinjaDict := step ["env/b2/gen.h"] "generate" ["gen.in"].
Definition link_b1 : NinjaDict := step ["env/b1/prog1"] "link_c_program" ["foo.o"].
Definition link_b2 : NinjaDict := step ["env/b2/prog2"] "link_c_program" ["foo.o"].

Definition entry (id : string) (env : Env) (ds : list NinjaDict)
    : ProductEntry :=
  {| pe_ident := id; pe_env := Some env;
     pe_products := [ {| ninja_dicts := ds |} ] |}.

Definition map_b1 : list ProductEntry :=
  [ entry "//lib:lib" env_lib [obj]; entry "//gen:gen" env_b1 [gen_b1];
    entry "//app:prog1" env_b1 [link_b1] ].
Definition map_b2 : list ProductEntry :=
  [ entry "//lib:lib" env_lib [obj]; entry "//gen:gen" env_b2 [gen_b2];
    entry "//app:prog2" env_b2 [link_b2] ].

Definition binary (n id : string) (product_map : list ProductEntry) : Target :=
  {| name := n; ident := id; concrete := true; evaluate := Ok product_map |}.

Definition app_with (ts : odict Target) : Project :=
  {| root := "/src"; build_dir := "/build"; alias := "ROOT";
     subprojects := [];
     packages :=
       [ ("lib", {| relpath := "lib";
                    targets := [("lib", target "lib" "//lib:lib")] |});
         ("app", {| relpath := "app"; targets := ts |}) ];
     ninja_rules := {[ "cobble_symlink_product" := cobble_symlink_product ]} |}.

Definition app : Project :=
  app_with [ ("prog1", binary "prog1" "//app:prog1" map_b1);
             ("prog2", binary "prog2" "//app:prog2" map_b2) ].

(** Two projects in which [foo.o] is produced by two different steps. *)
Definition clash_cxx : Project :=
  app_with [ ("prog1", binary "prog1" "//app:prog1"
                         [ entry "//lib:lib" env_lib [obj];
                           entry "//app:prog1" env_b1 [obj_cxx] ]) ].
Definition clash_as : Project :=
  app_with [ ("prog1", binary "prog1" "//app:prog1"
                         [ entry "//lib:lib" env_lib [obj];
                           entry "//app:prog1" env_b1 [obj_as] ]) ].

(** A product map that is not memoised: two entries for one target and
    one digest, the second with one more product. *)
Definition unmemoised : Project :=
  app_with [ ("prog1", binary "prog1" "//app:prog1"
                         [ entry "//lib:lib" env_lib [obj];
                           entry "//lib:lib" env_lib [obj; link_b1] ]) ].

(** A project whose second binary fails to evaluate. *)
Definition broken : Project :=
  app_with [ ("prog1", binary "prog1" "//app:prog1" map_b1);
             ("prog2", {| name := "prog2"; ident := "//app:prog2";
                          concrete := true;
                          evaluate := Raise (EvaluationError "cycle") |}) ].

End Sample.

(** ** The rest of [cobble/project.py] *)

(** [Project.outpath] *)
Definition Project_outpath (self : Project) (env : Env) (parts : list string)
    : string :=
  Path.join (build_dir self) ("env" :: alias self :: digest env :: parts).

(** [Project.linkpath] *)
Definition Project_linkpath (self : Project) (parts : list string) : string :=
  Path.join (build_dir self) ("latest" :: alias self :: parts).

(** [Package.outpath] *)
Definition Package_outpath (project : Project) (self : Package) (env : Env)
    (parts : list string) : string :=
  Project_outpath project env (relpath self :: parts).

(** [Package.linkpath] *)
Definition Package_linkpath (project : Project) (self : Package)
    (parts : list string) : string :=
  Project_linkpath project (relpath self :: parts).

Definition set_subprojects (self : Project) (subs : odict Project) : Project :=
  {| root := root self; build_dir := build_dir self; alias := alias self;
     subprojects := subs; packages := packages self;
     ninja_rules := ninja_rules self |}.

Definition set_packages (self : Project) (pkgs : odict Package) : Project :=
  {| root := root self; build_dir := build_dir self; alias := alias self;
     subprojects := subprojects self; packages := pkgs;
     ninja_rules := ninja_rules self |}.

(** [Project.add_subproject] *)
Definition add_subproject (self subproject : Project) : result Project :=
  match od_get (subprojects self) (alias subproject) with
  | Some _ =>
      Raise (AssertionError "Duplicate subproject %r" [FmtR (alias subproject)])
  | None =>
      Ok (set_subprojects self
            (od_set (subprojects self) (alias subproject) subproject))
  end.

(** [Project.add_package]; [package_project_is_self] is the outcome of
    the test [package.project is self]. *)
Definition add_package (self : Project) (package : Package)
    (package_project_is_self : bool) : result Project :=
  match od_get (packages self) (relpath package) with
  | Some _ =>
      Raise (AssertionError "duplicate package at %s" [FmtS (relpath package)])
  | None =>
      if package_project_is_self
      then Ok (set_packages self
                 (od_set (packages self) (relpath package) package))
      else Raise (AssertionError "package project misconfigured" [])
  end.

(** [Package.__init__]: the new package and the project it registered
    with.  [normpath] is [os.path.normpath]. *)
Definition Package_init (normpath : string → string) (project : Project)
    (relpath : string) : result (Project * Package) :=
  let self := {| relpath := normpath relpath; targets := [] |} in
  project' ← add_package project self true;
  Ok (project', self).

(** [Package.add_target], on the package alone. *)
Definition Package_add_target (self : Package) (target : Target)
    : result Package :=
  match od_get (targets self) (name target) with
  | Some _ =>
      Raise (AssertionError "duplicate target %s in package %s"
               [FmtS (name target); FmtS (relpath self)])
  | None =>
      Ok {| relpath := relpath self;
            targets := od_set (targets self) (name target) target |}
  end.

(** [Package.add_target] on a package held in [project.packages]: the
    dictionary holds the package object, so the project sees the new
    target. *)
Definition add_target (project : Project) (self : Package) (target : Target)
    : result (Project * Package) :=
  self' ← Package_add_target self target;
  Ok (set_packages project (od_set (packages project) (relpath self') self'),
      self').

(** [Project.define_environment], on [self.named_envs]. *)
Definition define_environment (named_envs : gmap string Env) (name : string)
    (env : Env) : result (gmap string Env) :=
  match named_envs !! name with
  | Some _ =>
      Raise (AssertionError "more than one environment named %s" [FmtS name])
  | None => Ok (<[name := env]> named_envs)
  end.

(** [Project.find_environment]; [named_envs p] reads [p.named_envs], a
    field that [Project] above does not carry. *)
Definition find_environment (named_envs : Project → gmap string Env)
    (self : Project) (ident : string) : result Env :=
  '(al, name) ←
    (if Py.contains "//" ident
     then match Py.split "//" ident with
          | [al; name] => Ok (al, name)
          | _ => Raise (ValueError "unpack")
          end
     else Ok ("", ident));
  match find_project self al with
  | None => Raise (AssertionError "No project with alias %r" [FmtR al])
  | Some project =>
      match named_envs project !! name with
      | None => Raise (AssertionError "No environment named %r" [FmtR ident])
      | Some env => Ok env
      end
  end.

(** A path component that does not restart the path in [os.path.join]. *)
Definition relative (part : string) : Prop := Py.startswith "/" part = false.

(** The names of the [rule] calls of a script. *)
Definition rule_names (script : list WriterCall) : list string :=
  omap (fun w => match w with W_rule n _ => Some n | _ => None end) script.

(** What the first pass maintains of the groups, [seen] being the entries
    processed: a group is not empty, and its steps are steps of a processed
    entry for its target and digest, in the order the entry yields them. *)
Definition groups_inv (seen : list ProductEntry) (c : Collector) : Prop :=
  ∀ ti emap ed flat,
    unique_products_by_target c !! ti = Some emap → emap !! ed = Some flat →
    flat ≠ [] ∧
    ∃ e, e ∈ seen ∧ pe_ident e = ti ∧ env_digest (pe_env e) = ed ∧
         flat `sublist_of` entry_dicts e.

(** What the first pass maintains of [environments_by_digest]: an
    environment is recorded under its digest, and the digests of the
    processed entries are recorded. *)
Definition envs_inv (seen : list ProductEntry) (c : Collector) : Prop :=
  (∀ d v, od_get (environments_by_digest c) d = Some v → env_digest v = d) ∧
  (∀ e, e ∈ seen →
        od_get (environments_by_digest c) (env_digest (pe_env e)) ≠ None).

(** ** [cobble/target/c.py]: compiling one source file *)

Module TargetC.

(** [s[:j]] for [0 <= j] *)
Fixpoint slice_to (j : nat) (s : string) : string :=
  match j, s with
  | O, _ => ""
  | S j', String a s' => String a (slice_to j' s')
  | S _, "" => ""
  end.

Fixpoint all_dots (s : string) : bool :=
  match s with
  | "" => true
  | String a s' => bool_decide (a = "."%char) && all_dots s'
  end.

(** [os.path.splitext(p)]: the extension starts at the last dot after the
    last ['/'], unless only dots precede it in the file name. *)
Definition splitext (p : string) : string * string :=
  let sepIndex := Py.rfind "/" p in
  let dotIndex := Py.rfind "." p in
  if (sepIndex <? dotIndex)%Z then
    let filenameIndex := Z.to_nat (sepIndex + 1) in
    if all_dots (slice_to (Z.to_nat dotIndex - filenameIndex)
                          (Py.slice_from filenameIndex p))
    then (p, "")
    else (slice_to (Z.to_nat dotIndex) p, Py.slice_from (Z.to_nat dotIndex) p)
  else (p, "").

(** [_file_type_map]: the rule and the environment keys per extension. *)
Definition _file_type_map : odict (string * list string) :=
  [ (".c", ("compile_c_obj", ["cc"; "c_flags"]));
    (".cc", ("compile_cxx_obj", ["cxx"; "cxx_flags"]));
    (".cpp", ("compile_cxx_obj", ["cxx"; "cxx_flags"]));
    (".S", ("assemble_obj_pp", ["aspp"; "aspp_flags"])) ].

(** [_compile_keys]; [order_only_name] is [cobble.target.ORDER_ONLY.name]. *)
Definition _compile_keys (order_only_name : string) : gset string :=
  {[ order_only_name; "c_deps_include_system" ]}.

(** The arguments [_compile_object] passes to [cobble.target.Product]. *)
Record ProductArgs := mkProductArgs {
  pa_env : Env;
  pa_outputs : list string;
  pa_rule : string;
  pa_inputs : list string;
}.

Inductive lookup_error := KeyError (key : string).

(** [_compile_object]; [subset_require env keys] is
    [env.subset_require(keys)]. *)
Definition _compile_object (subset_require : Env → gset string → Env)
    (order_only_name : string) (project : Project) (package : Package)
    (source : string) (env : Env) : lookup_error + ProductArgs :=
  let ext := (splitext source).2 in
  match od_get _file_type_map ext with
  | None => inl (KeyError ext)
  | Some (rule, keys) =>
      let keys := _compile_keys order_only_name ∪ list_to_set keys in
      let o_env := subset_require env keys in
      let src := Path.basename source in
      inr {| pa_env := o_env;
             pa_outputs := [Package_outpath project package o_env
                              [src +:+ ".o"]];
             pa_rule := rule;
             pa_inputs := [source] |}
  end.

(** [ninja_rules] of [c.py]. *)
Definition ninja_rules : odict Rule :=
  [ ("compile_c_obj",
     {[ "command" :=
          "$cc $c_deps_include_system -MF $depfile $c_flags -c -o $out $in";
        "description" := "C $in";
        "depfile" := "$out.d";
        "deps" := "gcc" ]});
    ("compile_cxx_obj",
     {[ "command" :=
          "$cxx $c_deps_include_system -MF $depfile $cxx_flags -c -o $out $in";
        "description" := "CXX $in";
        "depfile" := "$out.d";
        "deps" := "gcc" ]});
    ("assemble_obj_pp",
     {[ "command" :=
          "$aspp $c_deps_include_system -MF $depfile $aspp_flags -c -o $out $in";
        "description" := "AS+CPP $in";
        "depfile" := "$out.d";
        "deps" := "gcc" ]});
    ("link_c_program",
     {[ "command" := "$cxx $c_link_flags -o $out $in $c_link_srcs";
        "description" := "LINK $out" ]});
    ("archive_c_library",
     {[ "command" := "$ar rcs $out $in";
        "description" := "AR $out" ]}) ].

End TargetC.

(** ** The order of [dict.items()]

    The rule registry, the target registry of the first pass and its
    environment maps are held as finite maps, which record no order of
    insertion.  What [items()] returns for them in a run is an enumeration
    of the map's entries; the writer sorts it by key. *)
Definition items_order : Type := ∀ V, gmap string V → list (string * V).

(** [items] returns the entries of the dictionary, each once. *)
Definition enumerates (items : items_order) : Prop :=
  ∀ V (m : gmap string V), items V m ≡ₚ map_to_list m.

(** Lines 54-59, for the enumeration [items]. *)
Definition write_rules_in (items : items_order) (project : Project)
    : list WriterCall :=
  flat_map (fun kv => [W_rule kv.1 kv.2; W_newline])
           (sorted_items (items _ (ninja_rules project))).

(** Lines 114-126, for the enumeration [items]. *)
Definition write_target_in (items : items_order) (ti : string)
    (emap : gmap string (list NinjaDict)) : list WriterCall :=
  let env_count := size emap in
  (if decide (env_count = 1)
   then [ W_comment ("---- target " +:+ ti) true ] else []) ++
  flat_map
    (fun kv =>
       (if decide (1 < env_count)
        then [ W_comment ("---- target " +:+ ti +:+ " @ " +:+ kv.1) true ]
        else []) ++
       map W_build kv.2 ++
       [ W_newline ])
    (sorted_items (items _ emap)).

(** Lines 111-126, for the enumeration [items]. *)
Definition write_products_in (items : items_order) (c : Collector)
    : list WriterCall :=
  flat_map (fun kv => write_target_in items kv.1 kv.2)
           (sorted_items (items _ (unique_products_by_target c))).

(** [write_ninja_files] in a run in which [items()] enumerates the
    dictionaries as [items] does. *)
Definition write_ninja_files_in (items : items_order) (project : Project)
    (dump_environments : bool) (fs : FS) : FS * result unit :=
  let fs := <[tmp_path := []]> fs in
  let written :=
    write_header project ++ write_regeneration project ++
    write_rules_in items project in
  let fs := <[tmp_path := written]> fs in
  match collect project with
  | Raise e => (fs, Raise e)
  | Ok c =>
      let written :=
        written ++
        (if dump_environments then write_environments c else []) ++
        write_products_in items c in
      let fs := <[tmp_path := written]> fs in
      (rename tmp_path final_path fs, Ok ())
  end.

(** [Sample.app] once the rules of [cobble.target.c] are registered. *)
Definition app_c_rules : Project :=
  (Project_add_ninja_rules Sample.app TargetC.ninja_rules).1.

(** * Properties *)

(** ** Strings *)

Module PyFacts.
Import Py.

Lemma app_cons a s t : String a s +:+ t = String a (s +:+ t).
Proof. reflexivity. Qed.

Lemma app_nil_l s : "" +:+ s = s.
Proof. reflexivity. Qed.

Lemma app_assoc s t u : (s +:+ t) +:+ u = s +:+ t +:+ u.
Proof. induction s as [|a s IH]; [done|]. by rewrite !app_cons, IH. Qed.

Lemma startswith_app pre s : startswith pre (pre +:+ s) = true.
Proof.
  induction pre as [|a pre IH]; [done|].
  rewrite app_cons. simpl. by rewrite decide_True.
Qed.

Lemma startswith_inv pre s :
  startswith pre s = true → ∃ t, s = pre +:+ t.
Proof.
  revert s. induction pre as [|a pre IH]; intros s H.
  - by exists s.
  - destruct s as [|b s]; [done|]. simpl in H.
    destruct (decide (a = b)) as [->|]; [|done].
    destruct (IH _ H) as [t ->]. by exists t.
Qed.

Lemma split_go_skip sep pre t :
  split_go sep (String.length pre) (pre +:+ t) = split_go sep 0 t.
Proof. induction pre as [|a pre IH]; [done|]. by rewrite app_cons. Qed.

Lemma count_go_skip sub pre t :
  count_go sub (String.length pre) (pre +:+ t) = count_go sub 0 t.
Proof. induction pre as [|a pre IH]; [done|]. by rewrite app_cons. Qed.

Lemma split_match sep t :
  sep ≠ "" → split sep (sep +:+ t) = "" :: split sep t.
Proof.
  intros Hsep. destruct sep as [|c sep']; [done|].
  unfold split. rewrite app_cons.
  change (split_go (String c sep') 0 (String c (sep' +:+ t)))
    with (if startswith (String c sep') (String c (sep' +:+ t))
          then "" :: split_go (String c sep')
                       (String.length (String c sep') - 1) (sep' +:+ t)
          else match split_go (String c sep') 0 (sep' +:+ t) with
               | h :: r => String c h :: r
               | [] => [String c ""]
               end).
  rewrite <- app_cons, startswith_app. f_equal.
  replace (String.length (String c sep') - 1) with (String.length sep')
    by (simpl; lia).
  apply split_go_skip.
Qed.

Lemma split_nomatch sep c s :
  startswith sep (String c s) = false →
  split sep (String c s) =
    match split sep s with
    | h :: t => String c h :: t
    | [] => [String c ""]
    end.
Proof. intros H. unfold split. simpl split_go. by rewrite H. Qed.

Lemma count_match sub t :
  sub ≠ "" → count sub (sub +:+ t) = S (count sub t).
Proof.
  intros Hsub. destruct sub as [|c sub']; [done|].
  unfold count. rewrite app_cons.
  change (count_go (String c sub') 0 (String c (sub' +:+ t)))
    with (if startswith (String c sub') (String c (sub' +:+ t))
          then S (count_go (String c sub')
                    (String.length (String c sub') - 1) (sub' +:+ t))
          else count_go (String c sub') 0 (sub' +:+ t)).
  rewrite <- app_cons, startswith_app. f_equal.
  replace (String.length (String c sub') - 1) with (String.length sub')
    by (simpl; lia).
  apply count_go_skip.
Qed.

Lemma count_nomatch sub c s :
  startswith sub (String c s) = false →
  count sub (String c s) = count sub s.
Proof. intros H. unfold count. simpl count_go. by rewrite H. Qed.

Lemma split_go_nonempty sep k s : split_go sep k s ≠ [].
Proof.
  revert k. induction s as [|c s IH]; intros k; [done|].
  simpl. destruct k; [|apply IH].
  destruct (startswith sep (String c s)); [done|].
  by destruct (split_go sep 0 s).
Qed.

Lemma split_nonempty sep s : split sep s ≠ [].
Proof. apply split_go_nonempty. Qed.

(** [len(s.split(sep)) == s.count(sep) + 1] *)
Lemma split_length sep s : length (split sep s) = S (count sep s).
Proof.
  unfold split, count. generalize 0 as k. induction s as [|c s IH]; intros k.
  - done.
  - simpl. destruct k; [|apply IH].
    destruct (startswith sep (String c s)); simpl.
    + by rewrite IH.
    + specialize (IH 0). destruct (split_go sep 0 s); simpl in *; lia.
Qed.

(** A string that does not contain [sep] is not split. *)
Lemma contains_false_split sep s :
  contains sep s = false → split sep s = [s].
Proof.
  induction s as [|c s IH]; intros H.
  - done.
  - simpl in H. apply orb_false_iff in H as [Hs Hc].
    rewrite split_nomatch by done. by rewrite IH.
Qed.

Lemma split_single sep s r : split sep s = [r] → r = s.
Proof.
  revert r. induction s as [|c s IH]; intros r H.
  - by inversion H.
  - destruct (startswith sep (String c s)) eqn:Hs.
    + unfold split in H. simpl in H. rewrite Hs in H.
      injection H as _ Hnil. by apply split_go_nonempty in Hnil.
    + rewrite split_nomatch in H by done.
      destruct (split sep s) as [|h t] eqn:Hsp;
        [by apply split_nonempty in Hsp|].
      inversion H; subst. by rewrite (IH h).
Qed.

Lemma split_single_contains sep s :
  sep ≠ "" → split sep s = [s] → contains sep s = false.
Proof.
  intros Hsep. induction s as [|c s IH]; intros H.
  - destruct sep; done.
  - destruct (startswith sep (String c s)) eqn:Hs.
    + apply startswith_inv in Hs as [t Ht]. rewrite Ht in H.
      rewrite split_match in H by done. injection H as _ H2.
      by apply split_nonempty in H2.
    + simpl. rewrite Hs. simpl. apply IH.
      rewrite split_nomatch in H by done.
      destruct (split sep s) as [|h t] eqn:Hsp;
        [by apply split_nonempty in Hsp|].
      inversion H; subst. done.
Qed.

(** When a string splits in two, it is the two parts around [sep], and
    the second part does not split further. *)
Lemma split_two sep s a b :
  sep ≠ "" → split sep s = [a; b] →
  s = a +:+ sep +:+ b ∧ split sep b = [b].
Proof.
  intros Hsep. revert a. induction s as [|c s IH]; intros a H.
  - by inversion H.
  - destruct (startswith sep (String c s)) eqn:Hs.
    + apply startswith_inv in Hs as [t Ht]. rewrite Ht in *.
      rewrite split_match in H by done. injection H as <- Hb.
      apply split_single in Hb as Hbt. subst b. by rewrite Hb.
    + rewrite split_nomatch in H by done.
      destruct (split sep s) as [|h t] eqn:Hsp;
        [by apply split_nonempty in Hsp|].
      inversion H; subst. destruct (IH h eq_refl) as [-> Hb].
      by rewrite app_cons.
Qed.

(** [(a + sep + b).split(sep)] when [a] has no occurrence of the first
    character of [sep] and [b] does not contain [sep]. *)
Lemma split_app_two c sep' a b :
  contains (String c "") a = false →
  contains (String c sep') b = false →
  split (String c sep') (a +:+ String c sep' +:+ b) = [a; b].
Proof.
  intros Ha Hb. induction a as [|x a IH].
  - rewrite app_nil_l, split_match by done.
    by rewrite contains_false_split.
  - simpl in Ha. apply orb_false_iff in Ha as [Hx Ha].
    destruct (decide (c = x)) as [->|Hcx]; [done|].
    rewrite app_cons, split_nomatch.
    + by rewrite IH.
    + simpl. by rewrite decide_False.
Qed.

End PyFacts.

(** ** Identifier resolution *)

Lemma Project_ind (P : Project → Prop) :
  (∀ p, Forall (fun kq => P kq.2) (subprojects p) → P p) → ∀ p, P p.
Proof.
  intros IH.
  refine (fix go (p : Project) : P p := _).
  destruct p as [r b a subs pk nr]. apply IH. simpl.
  induction subs as [|kq subs IHs]; constructor; [apply go | apply IHs].
Qed.

Lemma find_project_unfold self a :
  find_project self a =
    if bool_decide (a = "") || bool_decide (a = alias self) then Some self
    else first_some (map (fun kp => find_project kp.2 a) (subprojects self)).
Proof. by destruct self. Qed.

Lemma projects_preorder_unfold p :
  projects_preorder p =
    p :: flat_map (fun kq => projects_preorder kq.2) (subprojects p).
Proof. by destruct p. Qed.

(** [find_project] returns the first project bearing the alias, in
    depth-first order. *)
Lemma find_project_preorder self a :
  a ≠ "" →
  find_project self a =
    head (filter (fun q => alias q = a) (projects_preorder self)).
Proof.
  intros Ha. induction self as [p IH] using Project_ind.
  rewrite find_project_unfold, projects_preorder_unfold, filter_cons.
  rewrite (bool_decide_eq_false_2 (a = "")) by done. simpl orb.
  destruct (decide (alias p = a)) as [<-|Hne].
  - by rewrite bool_decide_eq_true_2.
  - rewrite bool_decide_eq_false_2 by done.
    induction (subprojects p) as [|kq subs IHs]; [done|].
    apply Forall_cons in IH as [Hkq IH].
    simpl. rewrite filter_app, Hkq.
    destruct (filter _ (projects_preorder kq.2)); simpl; [by apply IHs|done].
Qed.

Lemma split_two_contains sep s a b :
  Py.split sep s = [a; b] → Py.contains sep s = true.
Proof.
  intros H. destruct (Py.contains sep s) eqn:Hc; [done|].
  apply PyFacts.contains_false_split in Hc. congruence.
Qed.

(** An identifier without alias is resolved in the project itself,
    whatever the recursion budget. *)
Lemma find_target_fuel_here n self ident rest :
  Py.split "//" ident = [""; rest] →
  find_target_fuel (S n) self ident = resolve_in_project self ident rest.
Proof.
  intros H. simpl. by rewrite (split_two_contains _ _ _ _ H), H.
Qed.

Lemma split_stripped ident al rest :
  Py.split "//" ident = [al; rest] →
  Py.split "//" ("//" +:+ rest) = [""; rest].
Proof.
  intros H. apply PyFacts.split_two in H as [_ H]; [|done].
  by rewrite PyFacts.split_match, H.
Qed.

Lemma find_target_fuel_alias n self ident al rest :
  Py.split "//" ident = [al; rest] → al ≠ "" →
  find_target_fuel (S (S n)) self ident =
    match find_project self al with
    | Some q => resolve_in_project q ("//" +:+ rest) rest
    | None => Raise (AssertionError "No project with alias %r" [FmtR al])
    end.
Proof.
  intros H Hal.
  change (find_target_fuel (S (S n)) self ident) with
    (if negb (Py.contains "//" ident)
     then Raise (AssertionError "Expected absolute identifier: %r" [FmtR ident])
     else match Py.split "//" ident with
          | [al; package_and_target] =>
              if negb (bool_decide (al = "")) then
                match find_project self al with
                | None =>
                    Raise (AssertionError "No project with alias %r" [FmtR al])
                | Some project =>
                    find_target_fuel (S n) project ("//" +:+ package_and_target)
                end
              else resolve_in_project self ident package_and_target
          | _ => Raise (ValueError "unpack")
          end).
  rewrite (split_two_contains _ _ _ _ H), H. simpl negb.
  rewrite bool_decide_eq_false_2 by done. simpl negb.
  destruct (find_project self al) as [q|]; [|done].
  apply find_target_fuel_here. by eapply split_stripped.
Qed.

(** Two levels of recursion are all [find_target] ever uses. *)
Lemma find_target_fuel_enough n self ident :
  find_target_fuel (S (S n)) self ident = find_target_fuel 2 self ident.
Proof.
  destruct (Py.split "//" ident) as [|al [|rest [|x l]]] eqn:H.
  - simpl. by rewrite H.
  - simpl. by rewrite H.
  - destruct (decide (al = "")) as [->|Hal].
    + by rewrite !(find_target_fuel_here _ _ _ _ H).
    + by rewrite !(find_target_fuel_alias _ _ _ _ _ H Hal).
  - simpl. by rewrite H.
Qed.

Lemma resolve_in_project_no_recursion self ident rest :
  resolve_in_project self ident rest ≠ Raise RecursionError.
Proof.
  unfold resolve_in_project, split_package_and_target, lookup_target.
  destruct (Py.count ":" rest) as [|[|n]]; simpl; try done.
  - destruct (od_get (packages self) rest) as [pkg|]; [|done].
    by destruct (od_get (targets pkg) _).
  - destruct (Py.split ":" rest) as [|p [|t [|x l]]]; simpl; try done.
    destruct (od_get (packages self) p) as [pkg|]; [|done].
    by destruct (od_get (targets pkg) _).
Qed.

(** [find_target] never exhausts its recursion budget. *)
Lemma find_target_no_recursion self ident :
  find_target self ident ≠ Raise RecursionError.
Proof.
  unfold find_target. change 1000 with (S (S 998)).
  destruct (Py.split "//" ident) as [|al [|rest [|x l]]] eqn:H.
  - simpl. rewrite H. by destruct (negb _).
  - simpl. rewrite H. by destruct (negb _).
  - destruct (decide (al = "")) as [->|Hal].
    + rewrite (find_target_fuel_here _ _ _ _ H).
      apply resolve_in_project_no_recursion.
    + rewrite (find_target_fuel_alias _ _ _ _ _ H Hal).
      destruct (find_project self al); [|done].
      apply resolve_in_project_no_recursion.
  - simpl. rewrite H. by destruct (negb _).
Qed.

Lemma find_target_here self ident rest :
  Py.split "//" ident = [""; rest] →
  find_target self ident = resolve_in_project self ident rest.
Proof. apply find_target_fuel_here. Qed.

Lemma find_target_alias self ident al rest :
  Py.split "//" ident = [al; rest] → al ≠ "" →
  find_target self ident =
    match find_project self al with
    | Some q => resolve_in_project q ("//" +:+ rest) rest
    | None => Raise (AssertionError "No project with alias %r" [FmtR al])
    end.
Proof. apply (find_target_fuel_alias 998). Qed.

Lemma split_slash p : Py.split "/" (String "/" p) = "" :: Py.split "/" p.
Proof. apply (PyFacts.split_match "/" p). done. Qed.

(** [os.path.basename] is the last component of the path. *)
Lemma rfind_split p :
  (-1 ≤ Py.rfind "/" p)%Z ∧
  ((Py.rfind "/" p < 0)%Z → Py.split "/" p = [p]) ∧
  ((0 ≤ Py.rfind "/" p)%Z → 2 ≤ length (Py.split "/" p)).
Proof.
  induction p as [|a p (Hge & Hno & Hyes)]; [by repeat split; simpl; try lia|].
  simpl Py.rfind. destruct (Z.leb_spec 0 (Py.rfind "/" p)) as [Hr|Hr].
  - repeat split; [lia..|]. intros _. specialize (Hyes Hr).
    destruct (decide (a = "/"%char)) as [->|Ha].
    + rewrite split_slash. simpl. lia.
    + rewrite PyFacts.split_nomatch by (simpl; by rewrite decide_False).
      destruct (Py.split "/" p); simpl in *; lia.
  - specialize (Hno Hr). destruct (decide (a = "/"%char)) as [->|Ha].
    + repeat split; [lia..|]. intros _.
      rewrite split_slash. rewrite Hno. simpl. lia.
    + repeat split; [lia| |lia]. intros _.
      rewrite PyFacts.split_nomatch by (simpl; by rewrite decide_False).
      by rewrite Hno.
Qed.

Lemma basename_last_component p : Path.basename p = last_component p.
Proof.
  unfold Path.basename, last_component.
  induction p as [|a p IH]; [done|].
  destruct (rfind_split p) as (Hge & Hno & Hyes).
  simpl Py.rfind. destruct (Z.leb_spec 0 (Py.rfind "/" p)) as [Hr|Hr].
  - replace (Z.to_nat (Py.rfind "/" p + 1 + 1))
      with (S (Z.to_nat (Py.rfind "/" p + 1))) by lia.
    simpl Py.slice_from. rewrite IH. specialize (Hyes Hr).
    destruct (decide (a = "/"%char)) as [->|Ha].
    + rewrite split_slash.
      destruct (Py.split "/" p) as [|h t]; [simpl in Hyes; lia|].
      by rewrite last_cons_cons.
    + rewrite PyFacts.split_nomatch by (simpl; by rewrite decide_False).
      destruct (Py.split "/" p) as [|h [|h' t]]; [simpl in Hyes; lia..|].
      by rewrite !last_cons_cons.
  - specialize (Hno Hr). destruct (decide (a = "/"%char)) as [->|Ha].
    + rewrite split_slash. by rewrite Hno.
    + rewrite PyFacts.split_nomatch by (simpl; by rewrite decide_False).
      by rewrite Hno.
Qed.

Lemma find_project_empty self : find_project self "" = Some self.
Proof. by rewrite find_project_unfold. Qed.

(** Whatever the alias, the remainder is resolved by the project the alias
    stands for, under the identifier ['//' + remainder]. *)
Lemma find_target_resolves self q ident al rest :
  Py.split "//" ident = [al; rest] →
  find_project self al = Some q →
  find_target self ident = resolve_in_project q ("//" +:+ rest) rest.
Proof.
  intros H Hq. destruct (decide (al = "")) as [->|Hal].
  - rewrite find_project_empty in Hq. injection Hq as <-.
    apply PyFacts.split_two in H as Hid; [|done]. destruct Hid as [Hid _].
    rewrite Hid at 1. apply find_target_here. by eapply split_stripped.
  - by rewrite (find_target_alias _ _ _ _ H Hal), Hq.
Qed.

(** C4.  In [find_target], the part of an absolute identifier after ['//']
    is split on [':'], in the project [q] that the alias stands for (the
    project itself for an empty alias).  Without a colon the target name is
    the last path component of the package path; with one colon the
    remainder is the package path, the colon and the target name; with
    more than one colon resolution raises [Too many colons in identifier].
    Instantiated at ['//a:b:c'], resolution fails. *)
Theorem find_target_colons (self q : Project) (ident al rest : string) :
  Py.split "//" ident = [al; rest] →
  find_project self al = Some q →
  match Py.count ":" rest with
  | 0 =>
      find_target self ident =
        lookup_target q ("//" +:+ rest) rest (last_component rest)
  | 1 =>
      ∃ pkg_path target_name,
        rest = pkg_path +:+ ":" +:+ target_name ∧
        find_target self ident =
          lookup_target q ("//" +:+ rest) pkg_path target_name
  | _ =>
      find_target self ident =
        Raise (Exception "Too many colons in identifier: %r"
                 [FmtR ("//" +:+ rest)])
  end.
Proof.
  intros H Hq. rewrite (find_target_resolves _ _ _ _ _ H Hq).
  unfold resolve_in_project, split_package_and_target.
  pose proof (PyFacts.split_length ":" rest) as Hlen.
  destruct (Py.count ":" rest) as [|[|n]] eqn:Hc.
  - simpl. by rewrite basename_last_component.
  - destruct (Py.split ":" rest) as [|p [|t [|x l]]] eqn:Hs; try done.
    exists p, t. split; [|done].
    by apply PyFacts.split_two in Hs as [-> _].
  - done.
Qed.

Lemma find_target_colons_witness :
  find_target (Project_init "/src" "/build" "") "//a:b:c" =
    Raise (Exception "Too many colons in identifier: %r" [FmtR "//a:b:c"]).
Proof.
  exact (find_target_colons (Project_init "/src" "/build" "")
           (Project_init "/src" "/build" "") "//a:b:c" "" "a:b:c"
           eq_refl eq_refl).
Defined.

Lemma find_target_stripped self ident al rest :
  Py.split "//" ident = [al; rest] → al ≠ "" →
  find_target self ident =
    match find_project self al with
    | Some q => find_target q ("//" +:+ rest)
    | None => Raise (AssertionError "No project with alias %r" [FmtR al])
    end.
Proof.
  intros H Hal. rewrite (find_target_alias _ _ _ _ H Hal).
  destruct (find_project self al) as [q|]; [|done].
  by rewrite (find_target_here _ _ _ (split_stripped _ _ _ H)).
Qed.

Lemma find_target_own_alias self ident rest :
  Py.split "//" ident = [alias self; rest] →
  find_target self ident = find_target self ("//" +:+ rest).
Proof.
  intros H. destruct (decide (alias self = "")) as [Heq|Hne].
  - rewrite Heq in H. apply PyFacts.split_two in H as [-> _]; done.
  - rewrite (find_target_stripped _ _ _ _ H Hne), find_project_unfold.
    by rewrite (bool_decide_eq_true_2 (alias self = alias self)), orb_true_r.
Qed.

(** C6.  For an identifier [alias//rest]: with an empty alias, or the
    project's own alias, the remainder is resolved in the project itself;
    any other alias is looked up depth-first in the tree of subprojects,
    the first project bearing it resolves ['//' + rest], and resolution
    fails when no project of the tree bears the alias. *)
Theorem find_target_by_alias (self : Project) (ident al rest : string) :
  Py.split "//" ident = [al; rest] →
  (al = "" → find_target self ident = resolve_in_project self ident rest) ∧
  (al = alias self → find_target self ident = find_target self ("//" +:+ rest)) ∧
  (al ≠ "" →
     find_project self al =
       head (filter (fun q => alias q = al) (projects_preorder self)) ∧
     find_target self ident =
       match find_project self al with
       | Some q => find_target q ("//" +:+ rest)
       | None => Raise (AssertionError "No project with alias %r" [FmtR al])
       end).
Proof.
  intros H. split; [|split].
  - intros ->. by apply find_target_here.
  - intros ->. by apply find_target_own_alias.
  - intros Hal. split;
      [by apply find_project_preorder | by apply find_target_stripped].
Qed.

Lemma find_target_by_alias_witness :
  find_project Sample.top "deep" = Some Sample.deep ∧
  find_target Sample.top "deep//x:y" = find_target Sample.deep "//x:y".
Proof.
  pose proof (find_target_by_alias Sample.top "deep//x:y" "deep" "x:y" eq_refl)
    as (_ & _ & H).
  destruct H as [Hp Ht]; [done|]. split; [exact Hp | exact Ht].
Defined.

(** C5.  From a package, [':t'] is rewritten to the project's alias,
    ['//'], the package's path and [':t'], and that identifier is resolved
    by the project; it names the same target as ['//' + path + ':t']. *)
Theorem package_relative_target (project : Project) (self : Package)
    (t : string) :
  make_absolute project self (":" +:+ t) =
    Ok (alias project +:+ "//" +:+ relpath self +:+ ":" +:+ t) ∧
  Package_find_target project self (":" +:+ t) =
    find_target project (alias project +:+ "//" +:+ relpath self +:+ ":" +:+ t) ∧
  (Py.contains "/" (alias project) = false →
   Py.contains "//" (relpath self +:+ ":" +:+ t) = false →
   Package_find_target project self (":" +:+ t) =
     find_target project ("//" +:+ relpath self +:+ ":" +:+ t)).
Proof.
  split; [done|]. split; [done|]. intros Ha Hr.
  change (Package_find_target project self (":" +:+ t)) with
    (find_target project
       (alias project +:+ "//" +:+ relpath self +:+ ":" +:+ t)).
  pose proof (PyFacts.split_app_two "/" "/" _ _ Ha Hr) as Hs.
  by apply find_target_own_alias.
Qed.

Lemma package_relative_target_witness :
  Package_find_target Sample.top Sample.pkg_a_b ":foo" =
    find_target Sample.top "//a/b:foo".
Proof.
  apply (package_relative_target Sample.top Sample.pkg_a_b "foo");
    reflexivity.
Defined.

Lemma split_package_and_target_ident i1 i2 rest r :
  split_package_and_target i1 rest = Ok r →
  split_package_and_target i2 rest = Ok r.
Proof.
  unfold split_package_and_target.
  destruct (Py.count ":" rest) as [|[|n]]; [done| |done].
  by destruct (Py.split ":" rest) as [|p [|t [|x l]]].
Qed.

(** C9, as the code has it.  Let [q] be the project that resolves the
    identifier and [pkg_path], [target_name] the two parts of its
    remainder.  When [pkg_path] is not a package of [q], resolution fails
    with [Reference to unknown package], naming ['//'] and the remainder,
    which is the identifier itself when it has no alias.  When the package
    has no target [target_name], resolution fails with [Target ... not
    found in package ...], naming the target name and the package as
    [alias//pkg_path]. *)
Theorem find_target_not_found (self q : Project)
    (ident al rest pkg_path target_name : string) :
  Py.split "//" ident = [al; rest] →
  find_project self al = Some q →
  split_package_and_target ("//" +:+ rest) rest = Ok (pkg_path, target_name) →
  (al = "" → "//" +:+ rest = ident) ∧
  (od_get (packages q) pkg_path = None →
   find_target self ident =
     Raise (AssertionError "Reference to unknown package: %r"
              [FmtR ("//" +:+ rest)])) ∧
  (∀ pkg, od_get (packages q) pkg_path = Some pkg →
          od_get (targets pkg) target_name = None →
          find_target self ident =
            Raise (AssertionError "Target %s not found in package %s"
                     [FmtS target_name;
                      FmtS (alias q +:+ "//" +:+ pkg_path)])).
Proof.
  intros H Hq Hsp.
  assert (al = "" → "//" +:+ rest = ident) as Hid.
  { intros ->. by apply PyFacts.split_two in H as [-> _]. }
  rewrite (find_target_resolves _ _ _ _ _ H Hq).
  unfold resolve_in_project. rewrite Hsp. simpl. unfold lookup_target.
  split; [done|]. split.
  - by intros ->.
  - by intros pkg -> ->.
Qed.

Lemma find_target_not_found_witness :
  find_target Sample.top "side//x:nothing" =
    Raise (AssertionError "Target %s not found in package %s"
             [FmtS "nothing"; FmtS "side//x"]) ∧
  find_target Sample.top "//nowhere" =
    Raise (AssertionError "Reference to unknown package: %r"
             [FmtR "//nowhere"]).
Proof.
  split.
  - apply (find_target_not_found Sample.top Sample.side "side//x:nothing"
             "side" "x:nothing" "x" "nothing" eq_refl eq_refl eq_refl)
      with (pkg := {| relpath := "x"; targets := [] |}); reflexivity.
  - apply (find_target_not_found Sample.top Sample.top "//nowhere"
             "" "nowhere" "nowhere" "nowhere" eq_refl eq_refl eq_refl).
    reflexivity.
Defined.

(** C9 as stated fails: package [a] of the sample root project exists and
    has no target [foo]; the error raised for ['//a:foo'] reads
    [Target foo not found in package ROOT//a], which does not contain the
    identifier. *)
Lemma missing_target_error_omits_identifier :
  od_get (packages Sample.top) "a" = Some Sample.pkg_a ∧
  od_get (targets Sample.pkg_a) "foo" = None ∧
  ∃ e, find_target Sample.top "//a:foo" = Raise e ∧
       message e = Some "Target foo not found in package ROOT//a" ∧
       ¬ names e "//a:foo".
Proof.
  split; [done|]. split; [done|].
  eexists. split; [reflexivity|]. split; [reflexivity|].
  intros (m & Hm & Hc). vm_compute in Hm. injection Hm as <-.
  vm_compute in Hc. discriminate.
Qed.

(** ** The rule registry *)

Lemma add_ninja_rules_preserves registry rules k v :
  registry !! k = Some v → (add_ninja_rules registry rules).1 !! k = Some v.
Proof.
  revert registry. induction rules as [|[k' v'] rules IH]; intros registry H.
  - done.
  - simpl. destruct (registry !! k') as [v0|] eqn:Hk'.
    + destruct (decide (v' = v0)); [by apply IH | done].
    + apply IH. rewrite lookup_insert_ne; [done|]. congruence.
Qed.

Lemma add_ninja_rules_rejects registry rules k v v' :
  registry !! k = Some v → (k, v') ∈ rules → v' ≠ v →
  is_ok (add_ninja_rules registry rules).2 = false.
Proof.
  revert registry.
  induction rules as [|[k0 v0] rules IH]; intros registry H Hin Hne.
  - by apply elem_of_nil in Hin.
  - simpl. apply elem_of_cons in Hin as [[= <- <-]|Hin].
    + rewrite H. by rewrite decide_False.
    + destruct (registry !! k0) as [w|] eqn:Hk0.
      * destruct (decide (v0 = w)); [by apply IH|done].
      * apply IH; [|done..]. rewrite lookup_insert_ne; [done|]. congruence.
Qed.

Lemma Project_add_ninja_rules_registry p rules :
  ninja_rules (Project_add_ninja_rules p rules).1 =
    (add_ninja_rules (ninja_rules p) rules).1.
Proof.
  unfold Project_add_ninja_rules.
  by destruct (add_ninja_rules (ninja_rules p) rules).
Qed.

(** C10.  A project holds the rule [cobble_symlink_product], with its
    fixed definition, from construction on; [add_ninja_rules] keeps every
    registered entry, whether it returns or raises; adding a registered
    name with the same definition changes nothing, and with another
    definition raises and changes nothing. *)
Theorem ninja_rules_never_replaced :
  (∀ p, constructed p →
        ninja_rules p !! "cobble_symlink_product" = Some cobble_symlink_product) ∧
  (∀ p rules k v,
     ninja_rules p !! k = Some v →
     ninja_rules (Project_add_ninja_rules p rules).1 !! k = Some v) ∧
  (∀ registry k v v',
     registry !! k = Some v →
     add_ninja_rules registry [(k, v')] =
       if decide (v' = v) then (registry, Ok ())
       else (registry,
             Raise (AssertionError
                      "ninja rule %s defined incompatibly in multiple places"
                      [FmtS k]))) ∧
  (∀ registry rules k v v',
     registry !! k = Some v → (k, v') ∈ rules → v' ≠ v →
     is_ok (add_ninja_rules registry rules).2 = false).
Proof.
  assert (∀ p rules k v,
            ninja_rules p !! k = Some v →
            ninja_rules (Project_add_ninja_rules p rules).1 !! k = Some v)
    as Hkeep.
  { intros p rules k v H. rewrite Project_add_ninja_rules_registry.
    by apply add_ninja_rules_preserves. }
  split; [|split; [exact Hkeep|split]].
  - induction 1 as [r b a|p rules _ IH|p p' _ IH Heq];
      [done|by apply Hkeep|by rewrite Heq].
  - intros registry k v v' H. simpl. rewrite H.
    by destruct (decide (v' = v)).
  - intros registry rules k v v' H Hin Hne. by eapply add_ninja_rules_rejects.
Qed.

Lemma ninja_rules_never_replaced_witness :
  ninja_rules
    (Project_add_ninja_rules (Project_init "/src" "/build" "ROOT")
       [("cobble_symlink_product", {[ "command" := "cp $in $out" ]})]).1
    !! "cobble_symlink_product" = Some cobble_symlink_product.
Proof.
  apply (proj1 ninja_rules_never_replaced).
  apply constructed_add, constructed_init.
Defined.

(** ** The regeneration step *)

Lemma projects_postorder_unfold p :
  projects_postorder p =
    flat_map (fun kq => projects_postorder kq.2) (subprojects p) ++ [p].
Proof. by destruct p. Qed.

Lemma _get_subproject_files_unfold p acc :
  _get_subproject_files p acc =
    visit_project
      (foldl (fun acc kq => _get_subproject_files kq.2 acc) acc (subprojects p))
      p.
Proof. by destruct p. Qed.

(** [_get_subproject_files] visits the projects in post-order. *)
Lemma _get_subproject_files_postorder p acc :
  _get_subproject_files p acc = foldl visit_project acc (projects_postorder p).
Proof.
  revert acc. induction p as [p IH] using Project_ind. intros acc.
  rewrite _get_subproject_files_unfold, projects_postorder_unfold, foldl_app.
  simpl. f_equal. revert acc.
  induction (subprojects p) as [|kq subs IHs]; intros acc; [done|].
  apply Forall_cons in IH as [Hkq IH].
  simpl. rewrite foldl_app, Hkq. by apply IHs.
Qed.

Lemma projects_postorder_preorder p :
  projects_postorder p ≡ₚ projects_preorder p.
Proof.
  induction p as [p IH] using Project_ind.
  rewrite projects_postorder_unfold, projects_preorder_unfold.
  rewrite <- Permutation_cons_append. constructor.
  induction (subprojects p) as [|kq subs IHs]; [done|].
  apply Forall_cons in IH as [Hkq IH]. simpl. by rewrite Hkq, IHs.
Qed.

Lemma od_get_None {V} (d : odict V) k : od_get d k = None ↔ k ∉ d.*1.
Proof.
  induction d as [|[k' v] d IH]; simpl.
  - split; [intros _; apply not_elem_of_nil | done].
  - rewrite not_elem_of_cons. destruct (decide (k' = k)) as [Hk|Hk].
    + split; [done|]. by intros [? _].
    + rewrite IH. split; [done|]. by intros [_ ?].
Qed.

(** Every visited project has its alias recorded, and every record is the
    alias and files of an earlier record or of a visited project. *)
Lemma visit_projects_spec l acc :
  (∀ q, q ∈ l → alias q ∈ (foldl visit_project acc l).*1) ∧
  (∀ e, e ∈ acc → e ∈ foldl visit_project acc l) ∧
  (∀ e, e ∈ foldl visit_project acc l →
        e ∈ acc ∨ ∃ q, q ∈ l ∧ e = (alias q, files q)).
Proof.
  revert acc. induction l as [|p l IH]; intros acc.
  - simpl. split; [by intros q ?%elem_of_nil|]. split; [done|]. by left.
  - simpl. destruct (IH (visit_project acc p)) as (IH1 & IH2 & IH3).
    assert (∀ e, e ∈ acc → e ∈ visit_project acc p) as Hmono.
    { intros e He. unfold visit_project.
      destruct (od_get acc (alias p)); [done|]. apply elem_of_app. by left. }
    assert (alias p ∈ (visit_project acc p).*1) as Hp.
    { unfold visit_project. destruct (od_get acc (alias p)) eqn:Hg.
      - destruct (decide (alias p ∈ acc.*1)) as [|Hn]; [done|].
        apply od_get_None in Hn. congruence.
      - rewrite fmap_app. apply elem_of_app. right. simpl. apply list_elem_of_here. }
    split; [|split].
    + intros q [->|Hq]%elem_of_cons; [|by apply IH1].
      apply list_elem_of_fmap in Hp as (e & -> & He).
      apply list_elem_of_fmap. exists e. split; [done|]. by apply IH2.
    + intros e He. by apply IH2, Hmono.
    + intros e He. destruct (IH3 e He) as [Hv|(q & Hq & ->)].
      * unfold visit_project in Hv.
        destruct (od_get acc (alias p)); [by left|].
        apply elem_of_app in Hv as [?|Hv%list_elem_of_singleton]; [by left|].
        subst e. right. exists p. split; [apply list_elem_of_here|done].
      * right. exists q. split; [by apply list_elem_of_further|done].
Qed.

(** With distinct aliases every project is recorded, in visiting order. *)
Lemma visit_projects_distinct l acc :
  NoDup (alias <$> l) → (∀ q, q ∈ l → alias q ∉ acc.*1) →
  foldl visit_project acc l = acc ++ map (fun q => (alias q, files q)) l.
Proof.
  revert acc. induction l as [|p l IH]; intros acc Hnd Hfresh.
  - simpl. by rewrite app_nil_r.
  - rewrite fmap_cons in Hnd. apply NoDup_cons in Hnd as [Hp Hnd].
    simpl. unfold visit_project at 2.
    assert (od_get acc (alias p) = None) as ->.
    { apply od_get_None, Hfresh, list_elem_of_here. }
    rewrite IH; [by rewrite <- app_assoc| done |].
    intros q Hq. rewrite fmap_app, elem_of_app. simpl.
    intros [Hin|Hin%list_elem_of_singleton].
    + by apply (Hfresh q); [apply list_elem_of_further|].
    + apply Hp. rewrite <- Hin. apply list_elem_of_fmap. by exists q.
Qed.

Lemma concat_mjoin {A} (ls : list (list A)) : concat ls = mjoin ls.
Proof. induction ls as [|l ls IH]; [done|]. simpl. by rewrite IH. Qed.

Lemma sorted_strings_sorted l : StronglySorted String.le (sorted_strings l).
Proof. apply StronglySorted_merge_sort; apply _. Qed.

Lemma sorted_strings_perm l : sorted_strings l ≡ₚ l.
Proof. apply merge_sort_Permutation. Qed.

Lemma _get_project_files_sorted project :
  StronglySorted String.le (_get_project_files project).
Proof. apply sorted_strings_sorted. Qed.

Lemma _get_project_files_elem project :
  alias_determines_files project →
  ∀ f, f ∈ _get_project_files project ↔
       ∃ q, q ∈ projects_preorder project ∧ f ∈ files q.
Proof.
  intros Hfiles f. unfold _get_project_files.
  rewrite sorted_strings_perm, _get_subproject_files_postorder.
  destruct (visit_projects_spec (projects_postorder project) [])
    as (Hall & _ & Hfrom).
  unfold od_values. rewrite concat_mjoin, list_elem_of_join. split.
  - intros (fs & Hf & Hfs). apply list_elem_of_fmap in Hfs as (e & -> & He).
    destruct (Hfrom e He) as [[]%elem_of_nil|(q & Hq & ->)].
    exists q. by rewrite <- projects_postorder_preorder.
  - intros (q & Hq & Hf). rewrite <- projects_postorder_preorder in Hq.
    pose proof (Hall q Hq) as Ha.
    apply list_elem_of_fmap in Ha as (e & Hae & He).
    destruct (Hfrom e He) as [[]%elem_of_nil|(q' & Hq' & Heq)].
    exists e.2. split; [|apply list_elem_of_fmap; by exists e].
    subst e. simpl in *.
    assert (files q' = files q) as ->; [|done].
    apply Hfiles; [by rewrite <- projects_postorder_preorder..|done].
Qed.

Lemma _get_project_files_perm project :
  NoDup (alias <$> projects_preorder project) →
  _get_project_files project ≡ₚ projects_preorder project ≫= files.
Proof.
  intros Hnd. unfold _get_project_files.
  rewrite sorted_strings_perm, _get_subproject_files_postorder.
  rewrite visit_projects_distinct.
  - simpl. unfold od_values.
    rewrite <- projects_postorder_preorder, concat_mjoin.
    induction (projects_postorder project) as [|q l IH]; [done|].
    simpl. by rewrite IH.
  - by rewrite projects_postorder_preorder.
  - intros q _. apply not_elem_of_nil.
Qed.

Lemma write_ninja_files_ok project dump_environments fs :
  (write_ninja_files project dump_environments fs).2 = Ok () →
  ∃ c, collect project = Ok c ∧
       (write_ninja_files project dump_environments fs).1 !! final_path =
         Some (script project dump_environments c).
Proof.
  unfold write_ninja_files. destruct (collect project) as [c|e]; [|done].
  intros _. exists c. split; [done|]. simpl. unfold rename.
  rewrite lookup_insert_eq, lookup_insert_eq.
  reflexivity.
Qed.

(** C7.  The first build step of the script builds [build.ninja] with the
    rule [cobble_generate_ninja], whose command re-runs the generator; its
    implicit inputs are sorted and are the [BUILD.conf] and [BUILD] files of
    the projects of the tree: as a set when projects with one alias have
    the same files, with multiplicities when aliases are distinct. *)
Theorem regeneration_step_first (project : Project)
    (dump_environments : bool) (fs : FS) :
  (write_ninja_files project dump_environments fs).2 = Ok () →
  ∃ script,
    (write_ninja_files project dump_environments fs).1 !! final_path
      = Some script ∧
    head (builds_of script) = Some (regeneration_step project) ∧
    W_rule "cobble_generate_ninja"
      {[ "command" := "./cobble init --reinit " +:+ root project;
         "description" := "(cobbling something together)" ]} ∈ script ∧
    outputs (regeneration_step project) = ["build.ninja"] ∧
    rule (regeneration_step project) = "cobble_generate_ninja" ∧
    ∃ l, implicit (regeneration_step project) = Some l ∧
         StronglySorted String.le l ∧
         (alias_determines_files project →
          ∀ f, f ∈ l ↔ ∃ q, q ∈ projects_preorder project ∧ f ∈ files q) ∧
         (NoDup (alias <$> projects_preorder project) →
          l ≡ₚ projects_preorder project ≫= files).
Proof.
  intros Hok. destruct (write_ninja_files_ok _ _ _ Hok) as (c & _ & Hfinal).
  exists (script project dump_environments c).
  split; [done|]. split; [done|]. split.
  { unfold script, write_header, write_regeneration. simpl.
    do 4 apply list_elem_of_further. apply list_elem_of_here. }
  split; [done|]. split; [done|].
  exists (_get_project_files project). split; [done|].
  split; [apply _get_project_files_sorted|].
  split; [apply _get_project_files_elem | apply _get_project_files_perm].
Qed.

Lemma regeneration_step_first_witness :
  ∃ script,
    (write_ninja_files Sample.top false ∅).1 !! final_path = Some script ∧
    head (builds_of script) = Some (regeneration_step Sample.top) ∧
    implicit (regeneration_step Sample.top) =
      Some [ "/src/BUILD.conf"; "/src/a/BUILD"; "/src/a/b/BUILD";
             "/src/mid/BUILD.conf"; "/src/mid/deep/BUILD.conf";
             "/src/mid/deep/x/BUILD"; "/src/side/BUILD.conf";
             "/src/side/x/BUILD" ].
Proof.
  destruct (regeneration_step_first Sample.top false ∅ eq_refl)
    as (script & Hfinal & Hhead & _).
  exists script. split; [exact Hfinal|]. split; [exact Hhead|].
  vm_compute. reflexivity.
Defined.

(** ** The first product pass *)

Lemma foldM_app {S A} (f : S → A → result S) s l1 l2 :
  foldM f s (l1 ++ l2) = foldM f s l1 ≫= fun s' => foldM f s' l2.
Proof.
  revert s. induction l1 as [|a l1 IH]; intros s; [done|].
  simpl. destruct (f s a) as [s'|e]; [apply IH|done].
Qed.

Lemma foldM_flat_map {S A B} (g : S → B → result S) (h : A → list B) s l :
  foldM (fun s a => foldM g s (h a)) s l = foldM g s (flat_map h l).
Proof.
  revert s. induction l as [|a l IH]; intros s; [done|].
  simpl. rewrite foldM_app.
  destruct (foldM g s (h a)) as [s'|e]; [apply IH|done].
Qed.

Lemma flat_map_bind {A B} (f : A → list B) l : flat_map f l = l ≫= f.
Proof. induction l as [|a l IH]; [done|]. simpl. by rewrite IH. Qed.

Lemma foldM_cons {S A} (f : S → A → result S) s a l :
  foldM f s (a :: l) = f s a ≫= fun s' => foldM f s' l.
Proof. done. Qed.

Lemma bind_Ok {A B} (a : A) (k : A → result B) : Ok a ≫= k = k a.
Proof. done. Qed.

Lemma bind_Raise {A B} e (k : A → result B) : Raise e ≫= k = Raise e.
Proof. done. Qed.

Lemma register_same reg d :
  reg !! output_key d = Some d → register reg d = Ok reg.
Proof. intros H. unfold register. rewrite H. by rewrite decide_True. Qed.

Lemma register_conflict reg d prev :
  reg !! output_key d = Some prev → prev ≠ d →
  register reg d =
    Raise (AssertionError "Conflicting rules produce outputs %r"
             [FmtRSet (output_key d)]).
Proof. intros H Hne. unfold register. rewrite H. by rewrite decide_False. Qed.

Lemma register_new reg d :
  reg !! output_key d = None →
  register reg d = Ok (<[output_key d := d]> reg).
Proof. intros H. unfold register. by rewrite H. Qed.

Lemma collect_dict_unfold reg flat d :
  collect_dict (reg, flat) d =
    register reg d ≫= fun reg' => Ok (reg', flat ++ new_dicts reg [d]).
Proof.
  unfold collect_dict, register. simpl.
  destruct (reg !! output_key d) as [prev|].
  - destruct (decide (prev = d)); [|done]. by rewrite bind_Ok, app_nil_r.
  - done.
Qed.

(** [collect_dict] registers the dictionaries and appends the new ones. *)
Lemma collect_dict_register by_output flat ds :
  foldM collect_dict (by_output, flat) ds =
    foldM register by_output ds ≫= fun by_output' =>
      Ok (by_output', flat ++ new_dicts by_output ds).
Proof.
  revert by_output flat. induction ds as [|d ds IH]; intros reg flat.
  - simpl. by rewrite app_nil_r.
  - rewrite !foldM_cons, collect_dict_unfold.
    destruct (reg !! output_key d) as [prev|] eqn:Hk.
    + destruct (decide (prev = d)) as [->|Hne].
      * rewrite register_same by done. rewrite !bind_Ok, IH. simpl.
        by rewrite Hk, app_nil_r.
      * by rewrite (register_conflict _ _ _ Hk Hne).
    + rewrite register_new by done. rewrite !bind_Ok, IH. simpl.
      by rewrite Hk, <- app_assoc.
Qed.

Lemma register_ok reg d reg' :
  register reg d = Ok reg' →
  reg' !! output_key d = Some d ∧
  (∀ k v, reg !! k = Some v → reg' !! k = Some v) ∧
  (map_to_list reg').*2 ≡ₚ (map_to_list reg).*2 ++ new_dicts reg [d].
Proof.
  destruct (reg !! output_key d) as [prev|] eqn:Hk.
  - destruct (decide (prev = d)) as [->|Hne].
    + rewrite register_same by done. intros [= <-].
      split; [done|]. split; [done|]. simpl. by rewrite Hk, app_nil_r.
    + by rewrite (register_conflict _ _ _ Hk Hne).
  - rewrite register_new by done. intros [= <-].
    split; [apply lookup_insert_eq|]. split.
    + intros k v Hv. rewrite lookup_insert_ne; [done|]. congruence.
    + simpl. rewrite Hk, map_to_list_insert by done.
      rewrite fmap_cons. simpl. apply Permutation_cons_append.
Qed.

Lemma new_dicts_cons reg d ds reg1 :
  register reg d = Ok reg1 →
  new_dicts reg (d :: ds) = new_dicts reg [d] ++ new_dicts reg1 ds.
Proof.
  destruct (reg !! output_key d) as [prev|] eqn:Hk.
  - destruct (decide (prev = d)) as [->|Hne].
    + rewrite register_same by done. intros [= <-]. simpl. by rewrite Hk.
    + by rewrite (register_conflict _ _ _ Hk Hne).
  - rewrite register_new by done. intros [= <-]. simpl. by rewrite Hk.
Qed.

(** A successful run of the registry over [ds]: nothing registered is
    replaced, every step of [ds] is registered as itself, and the
    registered steps are the former ones and the new ones. *)
Lemma register_all_ok ds reg reg' :
  foldM register reg ds = Ok reg' →
  (∀ k v, reg !! k = Some v → reg' !! k = Some v) ∧
  (∀ d, d ∈ ds → reg' !! output_key d = Some d) ∧
  (map_to_list reg').*2 ≡ₚ (map_to_list reg).*2 ++ new_dicts reg ds.
Proof.
  revert reg. induction ds as [|d ds IH]; intros reg H.
  - injection H as <-. split; [done|].
    split; [by intros d ?%elem_of_nil|]. simpl. by rewrite app_nil_r.
  - rewrite foldM_cons in H.
    destruct (register reg d) as [reg1|e] eqn:Hd; [|done].
    rewrite bind_Ok in H. destruct (IH _ H) as (Hkeep & Hall & Hperm).
    destruct (register_ok _ _ _ Hd) as (Hd1 & Hd2 & Hd3).
    split; [by auto|]. split.
    + intros d' [->|Hd']%elem_of_cons; [by apply Hkeep | by apply Hall].
    + rewrite Hperm, Hd3, (new_dicts_cons _ _ ds _ Hd).
      by rewrite <- app_assoc.
Qed.

Lemma new_dicts_registered reg ds :
  (∀ d, d ∈ ds → is_Some (reg !! output_key d)) → new_dicts reg ds = [].
Proof.
  induction ds as [|d ds IH]; intros H; [done|].
  simpl. destruct (H d) as [prev ->]; [apply list_elem_of_here|].
  apply IH. intros d' Hd'. by apply H, list_elem_of_further.
Qed.

Lemma first_with_key_app k l1 l2 :
  first_with_key k (l1 ++ l2) =
    match first_with_key k l1 with
    | Some d => Some d
    | None => first_with_key k l2
    end.
Proof.
  unfold first_with_key. rewrite filter_app.
  by destruct (filter _ l1).
Qed.

Lemma first_with_key_singleton k d :
  first_with_key k [d] = if decide (output_key d = k) then Some d else None.
Proof.
  unfold first_with_key. rewrite filter_cons.
  by destruct (decide (output_key d = k)).
Qed.

Lemma first_with_key_Some k ds d :
  first_with_key k ds = Some d → d ∈ ds ∧ output_key d = k.
Proof.
  unfold first_with_key. intros H%head_Some_elem_of.
  by apply list_elem_of_filter in H as [? ?].
Qed.

(** One step of the registry, which holds the first step met under each
    key. *)
Lemma register_first seen reg d :
  (∀ k, reg !! k = first_with_key k seen) →
  match register reg d with
  | Ok reg1 =>
      (∀ k, reg1 !! k = first_with_key k (seen ++ [d])) ∧
      first_with_key (output_key d) (seen ++ [d]) = Some d
  | Raise e =>
      ∃ first, first_with_key (output_key d) seen = Some first ∧ first ≠ d ∧
               e = AssertionError "Conflicting rules produce outputs %r"
                     [FmtRSet (output_key d)]
  end.
Proof.
  intros Hinv. destruct (reg !! output_key d) as [prev|] eqn:Hk.
  - destruct (decide (prev = d)) as [->|Hne].
    + rewrite register_same by done. rewrite Hinv in Hk. split.
      * intros k. rewrite first_with_key_app, <- Hinv.
        destruct (reg !! k) eqn:Hr; [done|].
        rewrite first_with_key_singleton.
        destruct (decide (output_key d = k)) as [<-|]; [|done].
        rewrite Hinv in Hr. congruence.
      * by rewrite first_with_key_app, Hk.
    + rewrite (register_conflict _ _ _ Hk Hne). exists prev.
      by rewrite <- Hinv.
  - rewrite register_new by done.
    assert (∀ k, <[output_key d := d]> reg !! k
                 = first_with_key k (seen ++ [d])) as Hinv'.
    { intros k. rewrite first_with_key_app, <- Hinv, lookup_insert.
      rewrite first_with_key_singleton.
      destruct (decide (output_key d = k)) as [<-|]; [by rewrite Hk|].
      by destruct (reg !! k). }
    split; [done|]. by rewrite <- Hinv', lookup_insert_eq.
Qed.

(** The registry over [ds]: it ends holding the first step met under each
    key, each step of [ds] being that first step; or it stops at the first
    step that differs from the one registered under its key. *)
Lemma register_all_first ds seen reg :
  (∀ k, reg !! k = first_with_key k seen) →
  match foldM register reg ds with
  | Ok reg' =>
      (∀ k, reg' !! k = first_with_key k (seen ++ ds)) ∧
      (∀ d, d ∈ ds → first_with_key (output_key d) (seen ++ ds) = Some d)
  | Raise e =>
      ∃ first later,
        first_with_key (output_key later) (seen ++ ds) = Some first ∧
        later ∈ ds ∧ first ≠ later ∧
        e = AssertionError "Conflicting rules produce outputs %r"
              [FmtRSet (output_key later)]
  end.
Proof.
  revert seen reg. induction ds as [|d ds IH]; intros seen reg Hinv.
  - simpl. rewrite app_nil_r. split; [done|]. by intros d ?%elem_of_nil.
  - rewrite foldM_cons. pose proof (register_first seen reg d Hinv) as Hstep.
    destruct (register reg d) as [reg1|e].
    + rewrite bind_Ok. destruct Hstep as [Hinv1 Hd].
      specialize (IH (seen ++ [d]) reg1 Hinv1).
      rewrite <- !app_assoc in IH. simpl in IH.
      destruct (foldM register reg1 ds) as [reg'|e].
      * destruct IH as [IH1 IH2]. split; [done|].
        intros d' [->|Hd']%elem_of_cons; [|by apply IH2].
        by rewrite (cons_middle d seen ds), app_assoc, first_with_key_app, Hd.
      * destruct IH as (first & later & H1 & H2 & H3 & H4).
        exists first, later.
        split; [done|]. split; [by apply list_elem_of_further|done].
    + rewrite bind_Raise. destruct Hstep as (first & H1 & H2 & H3).
      exists first, d. split; [by rewrite first_with_key_app, H1|].
      split; [apply list_elem_of_here|done].
Qed.

Lemma collect_products_register reg products :
  collect_products reg products =
    foldM register reg (flat_map ninja_dicts products) ≫= fun reg' =>
      Ok (reg', new_dicts reg (flat_map ninja_dicts products)).
Proof.
  unfold collect_products.
  by rewrite (foldM_flat_map collect_dict ninja_dicts), collect_dict_register.
Qed.

Lemma collect_entry_register c entry :
  collect_entry c entry =
    foldM register (unique_products_by_output c) (entry_dicts entry)
    ≫= fun reg' =>
      Ok {| unique_products_by_target :=
              record_flat (unique_products_by_target c) (pe_ident entry)
                (env_digest (pe_env entry))
                (new_dicts (unique_products_by_output c) (entry_dicts entry));
            unique_products_by_output := reg';
            environments_by_digest :=
              od_set (environments_by_digest c) (env_digest (pe_env entry))
                     (pe_env entry) |}.
Proof.
  unfold collect_entry. rewrite collect_products_register.
  fold (entry_dicts entry).
  destruct (foldM register (unique_products_by_output c) (entry_dicts entry))
    as [reg'|e]; [|done].
  rewrite !bind_Ok. unfold record_flat.
  by destruct (new_dicts (unique_products_by_output c) (entry_dicts entry)).
Qed.

(** The output registry of the first pass is the registry run over the
    observed steps. *)
Lemma collect_entries_registry entries c :
  match foldM collect_entry c entries with
  | Ok c' =>
      foldM register (unique_products_by_output c) (observed entries)
        = Ok (unique_products_by_output c')
  | Raise e =>
      foldM register (unique_products_by_output c) (observed entries) = Raise e
  end.
Proof.
  revert c. induction entries as [|entry entries IH]; intros c; [done|].
  rewrite foldM_cons, collect_entry_register.
  unfold observed. simpl flat_map. rewrite foldM_app.
  destruct (foldM register (unique_products_by_output c) (entry_dicts entry))
    as [reg'|e]; [|done].
  rewrite !bind_Ok. apply IH.
Qed.

Lemma collect_targets_entries targets maps c :
  evaluate <$> targets = Ok <$> maps →
  foldM collect_target c targets = foldM collect_entry c (concat maps).
Proof.
  revert maps c. induction targets as [|t targets IH]; intros maps c H.
  - destruct maps; [done|]. by inversion H.
  - destruct maps as [|m maps]; [by inversion H|].
    rewrite !fmap_cons in H. injection H as Ht H.
    rewrite foldM_cons.
    change (collect_target c t) with
      (evaluate t ≫= fun product_map => foldM collect_entry c product_map).
    rewrite Ht, bind_Ok.
    simpl concat. rewrite foldM_app.
    destruct (foldM collect_entry c m) as [c1|e]; [|done].
    rewrite !bind_Ok. by apply IH.
Qed.

(** ** The target registry *)

Lemma bind_perm_ext {A B} (f g : A → list B) l :
  (∀ x, f x ≡ₚ g x) → l ≫= f ≡ₚ l ≫= g.
Proof.
  intros H. induction l as [|x l IH]; [done|].
  by rewrite !bind_cons, H, IH.
Qed.

Lemma all_flats_insert by_target ti ed flat :
  default ∅ (by_target !! ti) !! ed = None →
  all_flats (<[ti := <[ed := flat]> (default ∅ (by_target !! ti))]> by_target)
    ≡ₚ flat ++ all_flats by_target.
Proof.
  intros Hfresh. unfold all_flats.
  destruct (by_target !! ti) as [emap|] eqn:Hti; simpl in *.
  - rewrite <- insert_delete_eq.
    rewrite map_to_list_insert by apply lookup_delete_eq.
    rewrite <- (map_to_list_delete by_target ti emap) by done.
    rewrite !bind_cons. simpl.
    rewrite map_to_list_insert by done.
    rewrite bind_cons. simpl. by rewrite <- app_assoc.
  - rewrite map_to_list_insert by done.
    rewrite bind_cons. simpl.
    rewrite insert_empty, map_to_list_singleton. simpl.
    by rewrite app_nil_r.
Qed.

Lemma collector_inv_step seen c entry c' :
  memoised (seen ++ [entry]) →
  collector_inv seen c →
  collect_entry c entry = Ok c' →
  collector_inv (seen ++ [entry]) c'.
Proof.
  intros Hmemo (I1 & I2 & I3). rewrite collect_entry_register.
  destruct (foldM register (unique_products_by_output c) (entry_dicts entry))
    as [reg'|e] eqn:Hreg; [|done].
  rewrite bind_Ok. intros [= <-]. simpl.
  destruct (register_all_ok _ _ _ Hreg) as (Hkeep & Hall & Hperm).
  set (flat := new_dicts (unique_products_by_output c) (entry_dicts entry))
    in *.
  assert (∀ e d, e ∈ seen ++ [entry] → d ∈ entry_dicts e →
                 reg' !! output_key d = Some d) as I1'.
  { intros e d [He|He%list_elem_of_singleton]%elem_of_app Hd.
    - by eapply Hkeep, I1.
    - subst e. by apply Hall. }
  destruct flat as [|d0 flat0] eqn:Hflat.
  - split; [done|]. split.
    + intros ti emap ed fl Hti Hed.
      destruct (I2 _ _ _ _ Hti Hed) as (e & He & ? & ?).
      exists e. split; [apply elem_of_app; by left|done].
    + simpl. rewrite I3, Hperm. by rewrite app_nil_r.
  - assert (default ∅ (unique_products_by_target c !! pe_ident entry)
              !! env_digest (pe_env entry) = None) as Hfresh.
    { destruct (unique_products_by_target c !! pe_ident entry)
        as [emap|] eqn:Hti; [|done]. simpl.
      destruct (emap !! env_digest (pe_env entry)) as [fl|] eqn:Hed; [|done].
      destruct (I2 _ _ _ _ Hti Hed) as (e & He & Hi & Hd).
      assert (pe_products e = pe_products entry) as Hprod.
      { apply Hmemo; [apply elem_of_app; by left| |done..].
        apply elem_of_app. right. apply list_elem_of_here. }
      assert (flat = []) as Hnil; [|unfold flat in *; congruence].
      apply new_dicts_registered. intros d Hd'.
      exists d. apply (I1 e); [done|]. unfold entry_dicts. by rewrite Hprod. }
    split; [done|]. split.
    + intros ti emap ed fl. simpl. rewrite lookup_insert.
      destruct (decide (pe_ident entry = ti)) as [<-|Hne].
      * intros [= <-]. rewrite lookup_insert.
        destruct (decide (env_digest (pe_env entry) = ed)) as [<-|Hned].
        -- intros _. exists entry. split; [|done].
           apply elem_of_app. right. apply list_elem_of_here.
        -- intros Hed.
           destruct (unique_products_by_target c !! pe_ident entry)
             as [emap|] eqn:Hti; [|done]. simpl in Hed.
           destruct (I2 _ _ _ _ Hti Hed) as (e & He & ? & ?).
           exists e. split; [apply elem_of_app; by left|done].
      * intros Hti Hed. destruct (I2 _ _ _ _ Hti Hed) as (e & He & ? & ?).
        exists e. split; [apply elem_of_app; by left|done].
    + simpl. rewrite all_flats_insert by done.
      rewrite I3, Hperm. apply Permutation_app_comm.
Qed.

Lemma collector_inv_all entries seen c c' :
  memoised (seen ++ entries) →
  collector_inv seen c →
  foldM collect_entry c entries = Ok c' →
  collector_inv (seen ++ entries) c'.
Proof.
  revert seen c. induction entries as [|entry entries IH]; intros seen c.
  - intros _ Hinv [= <-]. by rewrite app_nil_r.
  - intros Hmemo Hinv. rewrite foldM_cons.
    destruct (collect_entry c entry) as [c1|e] eqn:Hentry; [|done].
    rewrite bind_Ok. intros Hrest.
    rewrite (cons_middle entry seen entries), app_assoc in *.
    apply (IH _ c1); [done| |done].
    apply (collector_inv_step seen c); [|done..].
    intros e1 e2 H1 H2. apply Hmemo; apply elem_of_app; by left.
Qed.

Lemma collector_inv_empty : collector_inv [] empty_collector.
Proof.
  split; [by intros e d ?%elem_of_nil|]. split; [done|].
  unfold all_flats. simpl. by rewrite !map_to_list_empty.
Qed.

(** ** The build calls of the second pass *)

Lemma builds_of_app s1 s2 : builds_of (s1 ++ s2) = builds_of s1 ++ builds_of s2.
Proof. apply omap_app. Qed.

Lemma builds_of_flat_map {A} (f : A → list WriterCall) l :
  builds_of (flat_map f l) = l ≫= fun x => builds_of (f x).
Proof.
  induction l as [|x l IH]; [done|].
  simpl flat_map. by rewrite builds_of_app, IH.
Qed.

Lemma builds_of_map_build ds : builds_of (map W_build ds) = ds.
Proof. induction ds as [|d ds IH]; [done|]. simpl. f_equal. apply IH. Qed.

Lemma builds_of_write_target ti emap :
  builds_of (write_target ti emap) = sorted_items (map_to_list emap) ≫= snd.
Proof.
  unfold write_target. rewrite builds_of_app.
  assert (builds_of (if decide (size emap = 1)
                     then [W_comment ("---- target " +:+ ti) true] else [])
          = []) as -> by by destruct (decide _).
  rewrite builds_of_flat_map. simpl. apply list_bind_ext; [|done].
  intros [ed flat]. rewrite !builds_of_app, builds_of_map_build. simpl.
  destruct (decide (1 < size emap)); simpl; by rewrite app_nil_r.
Qed.

Lemma sorted_items_perm {V} (l : list (string * V)) : sorted_items l ≡ₚ l.
Proof. apply merge_sort_Permutation. Qed.

(** The second pass emits the steps held by the target registry. *)
Lemma builds_of_write_products c :
  builds_of (write_products c) ≡ₚ all_flats (unique_products_by_target c).
Proof.
  unfold write_products, all_flats.
  rewrite builds_of_flat_map, sorted_items_perm.
  apply bind_perm_ext. intros [ti emap]. simpl.
  by rewrite builds_of_write_target, sorted_items_perm.
Qed.

(** C1, as the code has it.  When every concrete target evaluates, the
    first pass either returns with, under each set of output paths, the
    first step observed with that set, every observed step being equal to
    the first one with its outputs, and (for memoised product maps) each
    observed step emitted by exactly one build call; or generation fails
    with [Conflicting rules produce outputs], on a step that differs from
    the first one observed with the same outputs, the error naming that set
    of outputs. *)
Theorem collect_deduplicates (project : Project)
    (maps : list (list ProductEntry)) :
  evaluate <$> concrete_targets project = Ok <$> maps →
  match collect project with
  | Ok c =>
      (∀ k, unique_products_by_output c !! k
            = first_with_key k (observed (concat maps))) ∧
      (∀ d, d ∈ observed (concat maps) →
            first_with_key (output_key d) (observed (concat maps)) = Some d) ∧
      (memoised (concat maps) →
       NoDup (builds_of (write_products c)) ∧
       ∀ d, d ∈ builds_of (write_products c) ↔ d ∈ observed (concat maps))
  | Raise e =>
      ∃ first later,
        first_with_key (output_key later) (observed (concat maps))
          = Some first ∧
        later ∈ observed (concat maps) ∧
        first ≠ later ∧
        e = AssertionError "Conflicting rules produce outputs %r"
              [FmtRSet (output_key later)] ∧
        ∀ dump_environments fs,
          (write_ninja_files project dump_environments fs).2 = Raise e
  end.
Proof.
  intros Heval.
  assert (collect project = foldM collect_entry empty_collector (concat maps))
    as Hcollect by by apply collect_targets_entries.
  pose proof (collect_entries_registry (concat maps) empty_collector) as Hreg.
  pose proof (register_all_first (observed (concat maps)) [] ∅
                (fun k => lookup_empty k)) as Hfirst.
  simpl in Hreg, Hfirst. rewrite <- Hcollect in Hreg.
  destruct (collect project) as [c|e] eqn:Hc.
  - rewrite Hreg in Hfirst. destruct Hfirst as [Hlookup Hsame].
    split; [done|]. split; [done|]. intros Hmemo.
    destruct (collector_inv_all (concat maps) [] empty_collector c)
      as (_ & _ & Hflats); [done|apply collector_inv_empty|done|].
    split.
    + rewrite builds_of_write_products, Hflats.
      apply NoDup_fmap_2_strong; [|apply NoDup_map_to_list].
      intros [k1 d1] [k2 d2] H1%elem_of_map_to_list H2%elem_of_map_to_list.
      simpl. intros <-. rewrite Hlookup in H1, H2.
      apply first_with_key_Some in H1 as [_ <-].
      by apply first_with_key_Some in H2 as [_ <-].
    + intros d. rewrite builds_of_write_products, Hflats.
      rewrite list_elem_of_fmap. split.
      * intros ([k d'] & -> & H%elem_of_map_to_list). simpl.
        rewrite Hlookup in H. by apply first_with_key_Some in H as [? _].
      * intros Hd. exists (output_key d, d). split; [done|].
        apply elem_of_map_to_list. rewrite Hlookup. by apply Hsame.
  - rewrite Hreg in Hfirst.
    destruct Hfirst as (first & later & H1 & H2 & H3 & H4).
    exists first, later. repeat (split; [done|]).
    intros dump_environments fs. unfold write_ninja_files. by rewrite Hc.
Qed.

Lemma memoised_check_true entries :
  memoised_check entries = true → memoised entries.
Proof.
  unfold memoised_check. intros H e1 e2 H1 H2.
  rewrite forallb_forall in H. apply list_elem_of_In, H in H1.
  rewrite forallb_forall in H1. apply list_elem_of_In, H1 in H2.
  by apply bool_decide_eq_true in H2.
Qed.

Lemma is_ok_true {A} (r : result A) : is_ok r = true → ∃ a, r = Ok a.
Proof. destruct r as [a|e]; [by exists a|done]. Qed.

Lemma collect_deduplicates_witness :
  ∃ c, collect Sample.app = Ok c ∧
       NoDup (builds_of (write_products c)) ∧
       ∀ d, d ∈ builds_of (write_products c)
            ↔ d ∈ observed (concat [Sample.map_b1; Sample.map_b2]).
Proof.
  destruct (is_ok_true (collect Sample.app)) as [c Hc];
    [vm_compute; reflexivity|].
  pose proof (collect_deduplicates Sample.app [Sample.map_b1; Sample.map_b2]
                eq_refl) as H.
  rewrite Hc in H. destruct H as (_ & _ & H).
  exists c. split; [exact Hc|].
  apply H, memoised_check_true. vm_compute. reflexivity.
Defined.

(** Memoisation matters: when a later entry for the same target and
    digest brings a new step, its list replaces the earlier one, and the
    step registered first is not written. *)
Lemma unmemoised_entry_replaces_group :
  match collect Sample.unmemoised with
  | Ok c =>
      unique_products_by_output c !! {[ "foo.o" ]} = Some Sample.obj ∧
      builds_of (write_products c) = [Sample.link_b1]
  | Raise _ => False
  end.
Proof. vm_compute. split; reflexivity. Qed.

(** C1 as stated fails: the conflict error carries the set of outputs and
    nothing of the two definitions.  [foo.o] compiled from [foo.c] clashes
    with [foo.o] compiled from [foo.cc] in one project and with [foo.o]
    assembled from [foo.S] in another; both fail with the same error, whose
    message names neither rule. *)
Lemma conflict_error_omits_definitions :
  let e := AssertionError "Conflicting rules produce outputs %r"
             [FmtRSet {[ "foo.o" ]}] in
  Sample.obj_cxx ≠ Sample.obj_as ∧
  collect Sample.clash_cxx = Raise e ∧
  collect Sample.clash_as = Raise e ∧
  message e = Some "Conflicting rules produce outputs frozenset({'foo.o'})" ∧
  ¬ names e "compile_c_obj" ∧ ¬ names e "compile_cxx_obj" ∧
  ¬ names e "foo.cc".
Proof.
  split; [done|]. split; [by vm_compute|]. split; [by vm_compute|].
  split; [by vm_compute|].
  repeat split; intros (m & Hm & Hc); vm_compute in Hm; injection Hm as <-;
    vm_compute in Hc; discriminate Hc.
Qed.

(** ** Writing the script *)

(** C2, as the code has it.  The script is written to [.build.ninja.tmp]
    and renamed to [build.ninja] after the last write.  When generation
    fails, [build.ninja] is as it was, and [.build.ninja.tmp] is left in
    place, holding what was written before the failure; no other path is
    touched. *)
Theorem write_ninja_files_rename (project : Project)
    (dump_environments : bool) (fs : FS) :
  let fs' := (write_ninja_files project dump_environments fs).1 in
  (∀ path, path ≠ final_path → path ≠ tmp_path → fs' !! path = fs !! path) ∧
  match (write_ninja_files project dump_environments fs).2 with
  | Ok _ =>
      ∃ c, collect project = Ok c ∧
           fs' !! final_path = Some (script project dump_environments c) ∧
           fs' !! tmp_path = None
  | Raise e =>
      collect project = Raise e ∧
      fs' !! final_path = fs !! final_path ∧
      fs' !! tmp_path =
        Some (write_header project ++ write_regeneration project ++
              write_rules project)
  end.
Proof.
  unfold write_ninja_files. destruct (collect project) as [c|e]; simpl.
  - unfold rename. rewrite lookup_insert_eq. split.
    + intros path H1 H2.
      by rewrite lookup_insert_ne, lookup_delete_ne, !lookup_insert_ne.
    + exists c. split; [done|]. split; [by rewrite lookup_insert_eq|].
      by rewrite lookup_insert_ne, lookup_delete_eq.
  - split; [|split; [done|split]].
    + intros path H1 H2. by rewrite !lookup_insert_ne.
    + by rewrite !lookup_insert_ne.
    + by rewrite lookup_insert_eq.
Qed.

(** C2 as stated fails: after a failed generation the temporary file
    exists, although no file existed before. *)
Lemma failed_generation_leaves_temporary_file :
  ∃ e, (write_ninja_files Sample.clash_cxx false ∅).2 = Raise e ∧
       (write_ninja_files Sample.clash_cxx false ∅).1 !! final_path = None ∧
       (write_ninja_files Sample.clash_cxx false ∅).1 !! tmp_path ≠ None.
Proof.
  eexists. split; [by vm_compute|]. split; [by vm_compute|].
  by vm_compute.
Qed.

(** ** The order of the script *)

Lemma key_le_trans {V} : Transitive (@key_le V).
Proof. intros a b c. unfold key_le. apply transitivity. Qed.

Lemma key_le_total {V} : Total (@key_le V).
Proof. intros a b. unfold key_le. apply total, _. Qed.

Lemma sorted_items_sorted {V} (l : list (string * V)) :
  StronglySorted key_le (sorted_items l).
Proof.
  pose proof (@key_le_trans V). pose proof (@key_le_total V).
  apply StronglySorted_merge_sort; apply _.
Qed.

Lemma sorted_strict {V} (l : list (string * V)) :
  NoDup l.*1 → StronglySorted key_le l → StronglySorted key_lt l.
Proof.
  induction l as [|a l IH]; intros Hnd Hs; [constructor|].
  rewrite fmap_cons in Hnd. apply NoDup_cons in Hnd as [Ha Hnd].
  apply StronglySorted_cons in Hs as [Hall Hs].
  constructor; [by apply IH|].
  apply Forall_forall. intros b Hb. split.
  - by apply (proj1 (Forall_forall _ _) Hall).
  - intros Heq. apply Ha. rewrite Heq. by apply list_elem_of_fmap_2.
Qed.

(** The items of a dictionary, sorted: strictly increasing keys. *)
Lemma sorted_items_map {V} (m : gmap string V) :
  StronglySorted key_lt (sorted_items (map_to_list m)).
Proof.
  apply sorted_strict; [|apply sorted_items_sorted].
  rewrite sorted_items_perm. apply NoDup_fst_map_to_list.
Qed.

Lemma elem_of_target_groups g ti emap :
  g ∈ target_groups ti emap ↔ g.1.1 = ti ∧ emap !! g.1.2 = Some g.2.
Proof.
  unfold target_groups. rewrite list_elem_of_fmap. split.
  - intros ([ed fl] & -> & H). rewrite sorted_items_perm in H.
    by apply elem_of_map_to_list in H.
  - destruct g as [[ti' ed] fl]. simpl. intros [-> H].
    exists (ed, fl). split; [done|].
    rewrite sorted_items_perm. by apply elem_of_map_to_list.
Qed.

Lemma elem_of_groups c ti ed flat :
  (ti, ed, flat) ∈ groups c ↔
  ∃ emap, unique_products_by_target c !! ti = Some emap ∧
          emap !! ed = Some flat.
Proof.
  unfold groups. rewrite list_elem_of_bind. split.
  - intros ([ti' emap] & Hg & Hkv). rewrite sorted_items_perm in Hkv.
    apply elem_of_map_to_list in Hkv.
    apply elem_of_target_groups in Hg as [Hti Hed]. simpl in *. subst ti'.
    by exists emap.
  - intros (emap & Hti & Hed). exists (ti, emap). split.
    + by apply elem_of_target_groups.
    + rewrite sorted_items_perm. by apply elem_of_map_to_list.
Qed.

Lemma target_groups_sorted ti emap :
  StronglySorted group_lt (target_groups ti emap).
Proof.
  unfold target_groups.
  apply (StronglySorted_fmap _ key_lt); [|apply sorted_items_map].
  intros a b Hab. right. by split.
Qed.

Lemma bind_groups_sorted (l : list (string * gmap string (list NinjaDict))) :
  StronglySorted key_lt l →
  StronglySorted group_lt (l ≫= fun kv => target_groups kv.1 kv.2).
Proof.
  induction 1 as [|kv l Hs IH Hall]; [constructor|].
  rewrite bind_cons. apply StronglySorted_app_2;
    [|apply target_groups_sorted|done].
  intros g1 g2 Hg1 Hg2. left.
  apply elem_of_target_groups in Hg1 as [-> _].
  apply list_elem_of_bind in Hg2 as (kv2 & Hg2 & Hkv2).
  apply elem_of_target_groups in Hg2 as [-> _].
  by apply (proj1 (Forall_forall _ _) Hall).
Qed.

Lemma groups_sorted c : StronglySorted group_lt (groups c).
Proof. apply bind_groups_sorted, sorted_items_map. Qed.

Lemma filter_target_groups ti ti' emap :
  filter (fun g => g.1.1 = ti) (target_groups ti' emap) =
    if decide (ti' = ti) then target_groups ti' emap else [].
Proof.
  unfold target_groups.
  induction (sorted_items (map_to_list emap)) as [|ef l IH].
  - by destruct (decide (ti' = ti)).
  - rewrite fmap_cons, filter_cons, IH. simpl.
    by destruct (decide (ti' = ti)).
Qed.

Lemma filter_bind_groups (l : list (string * gmap string (list NinjaDict)))
    ti emap :
  NoDup l.*1 → (ti, emap) ∈ l →
  filter (fun g => g.1.1 = ti) (l ≫= fun kv => target_groups kv.1 kv.2)
    = target_groups ti emap.
Proof.
  induction l as [|kv l IH]; intros Hnd Hin; [by apply elem_of_nil in Hin|].
  rewrite fmap_cons in Hnd. apply NoDup_cons in Hnd as [Hkv Hnd].
  rewrite bind_cons, filter_app, filter_target_groups.
  apply elem_of_cons in Hin as [<-|Hin]; simpl.
  - rewrite decide_True by done.
    assert (filter (fun g => g.1.1 = ti)
              (l ≫= fun kv => target_groups kv.1 kv.2) = []) as ->;
      [|by rewrite app_nil_r].
    clear IH Hnd. induction l as [|kv' l IH]; [done|].
    rewrite fmap_cons in Hkv. apply not_elem_of_cons in Hkv as [Hne Hkv].
    rewrite bind_cons, filter_app, filter_target_groups.
    rewrite decide_False by done. by apply IH.
  - rewrite decide_False; [by apply IH|].
    intros Heq. apply Hkv. rewrite Heq.
    by apply (list_elem_of_fmap_2 fst _ (ti, emap)).
Qed.

Lemma groups_count c ti emap :
  unique_products_by_target c !! ti = Some emap →
  length (filter (fun g => g.1.1 = ti) (groups c)) = size emap.
Proof.
  intros Hti. unfold groups.
  rewrite (filter_bind_groups _ ti emap).
  - unfold target_groups.
    by rewrite length_fmap, sorted_items_perm, length_map_to_list.
  - rewrite sorted_items_perm. apply NoDup_fst_map_to_list.
  - rewrite sorted_items_perm. by apply elem_of_map_to_list.
Qed.

Lemma write_target_groups gs ti emap :
  length (filter (fun g => g.1.1 = ti) gs) = size emap →
  write_target ti emap = target_groups ti emap ≫= write_group gs.
Proof.
  intros Hcount. unfold write_target, target_groups.
  assert (length (sorted_items (map_to_list emap)) = size emap) as Hlen
    by by rewrite sorted_items_perm, length_map_to_list.
  rewrite list_fmap_bind.
  destruct (decide (size emap = 1)) as [H1|H1].
  - destruct (sorted_items (map_to_list emap)) as [|[ed fl] [|? ?]];
      simpl in Hlen; try lia.
    simpl. unfold write_group, annotation. simpl. rewrite Hcount.
    destruct (decide (size emap = 1)); [|done].
    destruct (decide (1 < size emap)); [lia|done].
  - simpl. destruct (decide (1 < size emap)) as [H2|H2].
    + rewrite flat_map_bind. apply list_bind_ext; [|done].
      intros [ed fl]. simpl. unfold write_group, annotation. simpl.
      rewrite Hcount. by destruct (decide (size emap = 1)).
    + destruct (sorted_items (map_to_list emap)); [done|simpl in Hlen; lia].
Qed.

Lemma flat_map_bind_ext {A B} (f g : A → list B) l :
  (∀ x, x ∈ l → f x = g x) → flat_map f l = l ≫= g.
Proof.
  induction l as [|x l IH]; intros H; [done|].
  simpl flat_map. rewrite bind_cons, H by apply list_elem_of_here.
  f_equal. apply IH. intros y Hy. by apply H, list_elem_of_further.
Qed.

Lemma bind_bind {A B C} (f : A → list B) (g : B → list C) l :
  (l ≫= f) ≫= g = l ≫= fun x => f x ≫= g.
Proof.
  induction l as [|x l IH]; [done|]. by rewrite !bind_cons, bind_app, IH.
Qed.

(** The second pass writes the groups in order, each under its
    annotation. *)
Lemma write_products_groups c :
  write_products c = flat_map (write_group (groups c)) (groups c).
Proof.
  rewrite (flat_map_bind (write_group (groups c))).
  unfold write_products, groups at 2. rewrite bind_bind.
  apply flat_map_bind_ext. intros [ti emap] Hin. simpl.
  apply write_target_groups, groups_count.
  rewrite sorted_items_perm in Hin. by apply elem_of_map_to_list in Hin.
Qed.

Lemma write_environments_annotation c :
  Forall is_annotation (write_environments c).
Proof.
  unfold write_environments. repeat constructor.
  induction (environments_by_digest c) as [|[d env] l IH]; [constructor|].
  simpl flat_map. apply Forall_app. split; [|done].
  destruct env as [env|]; simpl; [|constructor].
  constructor; [done|]. apply Forall_app. split; [|by repeat constructor].
  induction (readout_all env); by constructor.
Qed.

(** C3.  A generated script is, in this order: the header; the
    regeneration rule and build step; the registered rules, one
    [rule] call each, strictly increasing by name; the optional environment
    listing, made of comments and blank lines; and the groups of the target
    registry, strictly increasing by target identifier and then digest.
    Each group is a comment, its build steps and a blank line; the comment
    of a target with a single group names the identifier, the comments of a
    target with several groups name the identifier and the digest. *)
Theorem script_layout (project : Project) (dump_environments : bool)
    (fs : FS) :
  (write_ninja_files project dump_environments fs).2 = Ok () →
  ∃ c rules listing gs,
    collect project = Ok c ∧
    (write_ninja_files project dump_environments fs).1 !! final_path =
      Some (write_header project ++
            [ W_comment "Automatic regeneration" true;
              W_rule "cobble_generate_ninja" (cobble_generate_ninja project);
              W_build (regeneration_step project);
              W_newline ] ++
            flat_map (fun kv => [W_rule kv.1 kv.2; W_newline]) rules ++
            listing ++
            flat_map (write_group gs) gs) ∧
    rules ≡ₚ map_to_list (ninja_rules project) ∧
    StronglySorted key_lt rules ∧
    Forall is_annotation listing ∧
    (dump_environments = false → listing = []) ∧
    (∀ ti ed flat,
       (ti, ed, flat) ∈ gs ↔
       ∃ emap, unique_products_by_target c !! ti = Some emap ∧
               emap !! ed = Some flat) ∧
    StronglySorted group_lt gs ∧
    (∀ g, g ∈ gs →
          write_group gs g =
            (if decide (length (filter (fun g' => g'.1.1 = g.1.1) gs) = 1)
             then W_comment ("---- target " +:+ g.1.1) true
             else W_comment ("---- target " +:+ g.1.1 +:+ " @ " +:+ g.1.2)
                    true)
            :: map W_build g.2 ++ [W_newline]).
Proof.
  intros Hok. destruct (write_ninja_files_ok _ _ _ Hok) as (c & Hc & Hfinal).
  exists c, (sorted_items (map_to_list (ninja_rules project))),
    (if dump_environments then write_environments c else []), (groups c).
  split; [done|]. split.
  { rewrite Hfinal. unfold script. by rewrite write_products_groups. }
  split; [apply sorted_items_perm|]. split; [apply sorted_items_map|].
  split.
  { destruct dump_environments;
      [apply write_environments_annotation | constructor]. }
  split; [by intros ->|]. split; [apply elem_of_groups|].
  split; [apply groups_sorted|done].
Qed.

Lemma script_layout_witness :
  ∃ c gs,
    collect Sample.app = Ok c ∧
    StronglySorted group_lt gs ∧
    (∀ ti ed flat,
       (ti, ed, flat) ∈ gs ↔
       ∃ emap, unique_products_by_target c !! ti = Some emap ∧
               emap !! ed = Some flat).
Proof.
  destruct (script_layout Sample.app true ∅ eq_refl)
    as (c & rules & listing & gs & Hc & _ & _ & _ & _ & _ & Hgs & Hs & _).
  exists c, gs. split; [exact Hc|]. split; [exact Hs | exact Hgs].
Defined.

Lemma key_lt_asym {V} (a b : string * V) : key_lt a b → key_lt b a → a = b.
Proof.
  intros [H1 Hne] [H2 _]. destruct Hne. by apply (anti_symm String.le).
Qed.

(** Sorting by key forgets the order in which the entries of a dictionary
    are enumerated: the keys of a dictionary are pairwise distinct. *)
Lemma sorted_items_enumeration {V} (m : gmap string V)
    (l : list (string * V)) :
  l ≡ₚ map_to_list m → sorted_items l = sorted_items (map_to_list m).
Proof.
  intros Hl.
  apply (StronglySorted_unique_strong key_lt).
  - intros a b _ _. apply key_lt_asym.
  - apply sorted_strict; [|apply sorted_items_sorted].
    rewrite sorted_items_perm, Hl. apply NoDup_fst_map_to_list.
  - apply sorted_items_map.
  - by rewrite !sorted_items_perm.
Qed.

Lemma write_rules_in_enumeration items project :
  enumerates items → write_rules_in items project = write_rules project.
Proof.
  intros Hitems. unfold write_rules_in, write_rules.
  by rewrite (sorted_items_enumeration _ _ (Hitems _ _)).
Qed.

Lemma write_products_in_enumeration items c :
  enumerates items → write_products_in items c = write_products c.
Proof.
  intros Hitems. unfold write_products_in, write_products.
  rewrite (sorted_items_enumeration _ _ (Hitems _ _)).
  apply flat_map_ext. intros [ti emap]. simpl.
  unfold write_target_in, write_target.
  by rewrite (sorted_items_enumeration _ _ (Hitems _ _)).
Qed.

Lemma write_ninja_files_in_enumeration items project dump_environments fs :
  enumerates items →
  write_ninja_files_in items project dump_environments fs
  = write_ninja_files project dump_environments fs.
Proof.
  intros Hitems. unfold write_ninja_files_in, write_ninja_files.
  rewrite write_rules_in_enumeration by done.
  destruct (collect project) as [c|e]; [|done].
  by rewrite write_products_in_enumeration.
Qed.



(** ** Paths *)

Lemma startswith_refl s : Py.startswith s s = true.
Proof. induction s as [|a s IH]; [done|]. simpl. by rewrite decide_True. Qed.

Lemma startswith_app_r a s t :
  Py.startswith a s = true → Py.startswith a (s +:+ t) = true.
Proof.
  intros [u ->]%PyFacts.startswith_inv.
  rewrite PyFacts.app_assoc. apply PyFacts.startswith_app.
Qed.

Lemma join1_prefix a path b :
  relative b → Py.startswith a path = true →
  Py.startswith a (Path.join1 path b) = true.
Proof.
  intros Hb Ha. unfold Path.join1. rewrite Hb.
  destruct (bool_decide (path = "") || Py.endswith_char "/" path);
    by apply startswith_app_r.
Qed.

Lemma foldl_join1_prefix a path parts :
  Forall relative parts → Py.startswith a path = true →
  Py.startswith a (foldl Path.join1 path parts) = true.
Proof.
  intros Hparts. revert path.
  induction Hparts as [|b parts Hb _ IH]; intros path Ha; [done|].
  simpl. by apply IH, join1_prefix.
Qed.

Lemma join_absolute a l1 b l2 :
  Py.startswith "/" b = true →
  Path.join a (l1 ++ b :: l2) = Path.join b l2.
Proof.
  intros Hb. unfold Path.join. rewrite foldl_app. simpl.
  unfold Path.join1 at 2. by rewrite Hb.
Qed.

(** X1.  Paths built from relative components stay under their base:
    [inpath] under the project root, [outpath] and [linkpath] under the
    build directory.  A component that starts with ['/'] discards all that
    precedes it. *)
Theorem paths_stay_under_base (self : Project) (env : Env)
    (parts : list string) :
  Forall relative parts →
  Py.startswith (root self) (Project_inpath self parts) = true ∧
  (relative (alias self) → relative (digest env) →
   Py.startswith (build_dir self) (Project_outpath self env parts) = true) ∧
  (relative (alias self) →
   Py.startswith (build_dir self) (Project_linkpath self parts) = true) ∧
  (∀ l1 b l2, Py.startswith "/" b = true →
              Project_inpath self (l1 ++ b :: l2) = Path.join b l2).
Proof.
  intros Hparts. split; [|split; [|split]].
  - apply foldl_join1_prefix; [done|apply startswith_refl].
  - intros Ha Hd. apply foldl_join1_prefix; [|apply startswith_refl].
    by repeat constructor.
  - intros Ha. apply foldl_join1_prefix; [|apply startswith_refl].
    by repeat constructor.
  - intros l1 b l2 Hb. by apply join_absolute.
Qed.

Lemma paths_stay_under_base_witness :
  Py.startswith "/src" (Project_inpath Sample.top ["a/b"; "BUILD"]) = true.
Proof.
  refine (proj1 (paths_stay_under_base Sample.top Sample.env_lib
                   ["a/b"; "BUILD"] _)).
  repeat constructor.
Defined.

Lemma endswith_char_app c x s :
  s ≠ "" → Py.endswith_char c (x +:+ s) = Py.endswith_char c s.
Proof.
  intros Hs. induction x as [|a x IH]; [done|].
  rewrite PyFacts.app_cons. simpl.
  destruct (x +:+ s) as [|b u] eqn:Hxs; [|done].
  destruct x; [|done]. by rewrite PyFacts.app_nil_l in Hxs.
Qed.

Lemma app_empty_inv x s : x +:+ s = "" → s = "".
Proof. by destruct x. Qed.

Lemma join1_app x s b :
  s ≠ "" → relative b → Path.join1 (x +:+ s) b = x +:+ Path.join1 s b.
Proof.
  intros Hs Hb. unfold Path.join1. rewrite Hb.
  rewrite endswith_char_app by done.
  rewrite (bool_decide_eq_false_2 (s = "")) by done.
  rewrite (bool_decide_eq_false_2 (x +:+ s = ""))
    by (intros H%app_empty_inv; done).
  simpl. destruct (Py.endswith_char "/" s); by rewrite PyFacts.app_assoc.
Qed.

Lemma join1_nonempty s b : s ≠ "" → relative b → Path.join1 s b ≠ "".
Proof.
  intros Hs Hb. unfold Path.join1. rewrite Hb.
  destruct s as [|a s]; [done|].
  by destruct (bool_decide _ || Py.endswith_char "/" (String a s)).
Qed.

Lemma foldl_join1_app x s parts :
  s ≠ "" → Forall relative parts →
  foldl Path.join1 (x +:+ s) parts = x +:+ foldl Path.join1 s parts.
Proof.
  intros Hs Hparts. revert s Hs.
  induction Hparts as [|b parts Hb _ IH]; intros s Hs; [done|].
  simpl. rewrite join1_app by done. by apply IH, join1_nonempty.
Qed.

Lemma no_slash_not_endswith d :
  Py.contains "/" d = false → Py.endswith_char "/" d = false.
Proof.
  induction d as [|a d IH]; [done|]. simpl.
  destruct (decide ("/"%char = a)) as [<-|Hne]; [done|]. simpl.
  intros Hd. destruct d as [|b d]; [by rewrite bool_decide_eq_false_2|].
  by apply IH.
Qed.

Lemma contains_slash_head t : Py.contains "/" (String "/" t) = true.
Proof. done. Qed.

Lemma no_slash_cancel d1 d2 t1 t2 :
  Py.contains "/" d1 = false → Py.contains "/" d2 = false →
  d1 +:+ String "/" t1 = d2 +:+ String "/" t2 → d1 = d2.
Proof.
  revert d2. induction d1 as [|a d1 IH]; intros d2 H1 H2 Heq.
  - destruct d2 as [|b d2]; [done|].
    rewrite PyFacts.app_nil_l, PyFacts.app_cons in Heq.
    injection Heq as <- _. by rewrite contains_slash_head in H2.
  - destruct d2 as [|b d2].
    + rewrite PyFacts.app_nil_l, PyFacts.app_cons in Heq.
      injection Heq as -> _. by rewrite contains_slash_head in H1.
    + rewrite !PyFacts.app_cons in Heq. injection Heq as <- Heq.
      f_equal. apply IH; [| |done].
      * simpl in H1. by apply orb_false_iff in H1 as [_ ?].
      * simpl in H2. by apply orb_false_iff in H2 as [_ ?].
Qed.

(** The path below a digest: the digest, then what the later components
    add, which does not depend on the digest. *)
Lemma join_from_digest d b rest :
  d ≠ "" → Py.contains "/" d = false → Forall relative (b :: rest) →
  foldl Path.join1 d (b :: rest)
  = d +:+ foldl Path.join1 (String "/" b) rest.
Proof.
  intros Hd Hs [Hb Hrest]%Forall_cons. simpl.
  unfold Path.join1 at 2. rewrite Hb, (no_slash_not_endswith d Hs).
  rewrite (bool_decide_eq_false_2 (d = "")) by done. simpl.
  by apply foldl_join1_app.
Qed.

(** X2.  Output paths are distinguished by their environments: for
    non-empty digests without ['/'] and relative components, two
    environments with the same output path have the same digest. *)
Theorem outpath_distinguishes_environments (self : Project) (env1 env2 : Env)
    (parts : list string) :
  Forall relative parts →
  digest env1 ≠ "" → digest env2 ≠ "" →
  Py.contains "/" (digest env1) = false →
  Py.contains "/" (digest env2) = false →
  Project_outpath self env1 parts = Project_outpath self env2 parts →
  digest env1 = digest env2.
Proof.
  intros Hparts Hn1 Hn2 Hs1 Hs2. unfold Project_outpath, Path.join. simpl.
  set (P := Path.join1 (Path.join1 (build_dir self) "env") (alias self)).
  assert (∀ d, Py.contains "/" d = false → d ≠ "" →
               ∃ P', ∀ d', Py.contains "/" d' = false → d' ≠ "" →
                 foldl Path.join1 (Path.join1 P d') parts
                 = P' +:+ foldl Path.join1 d' parts) as Hshape.
  { intros _ _ _.
    exists (if bool_decide (P = "") || Py.endswith_char "/" P
            then P else P +:+ "/").
    intros d Hs Hn.
    assert (relative d) as Hrel.
    { destruct d as [|a d]; [done|]. unfold relative. simpl in *.
      by destruct (decide ("/"%char = a)). }
    unfold Path.join1 at 2. rewrite Hrel.
    destruct (bool_decide (P = "") || Py.endswith_char "/" P).
    - by apply foldl_join1_app.
    - rewrite <- PyFacts.app_assoc. by apply foldl_join1_app. }
  destruct (Hshape _ Hs1 Hn1) as [P' HP']. clear Hshape.
  rewrite (HP' _ Hs1 Hn1), (HP' _ Hs2 Hn2).
  intros Heq%(inj (String.app P')).
  destruct parts as [|b rest]; [done|].
  rewrite !join_from_digest in Heq by done.
  apply Forall_cons in Hparts as [Hb Hrest].
  assert (Py.startswith "/" (foldl Path.join1 (String "/" b) rest) = true)
    as [t Ht]%PyFacts.startswith_inv.
  { by apply foldl_join1_prefix. }
  rewrite Ht in Heq. by apply (no_slash_cancel _ _ t t).
Qed.

Lemma outpath_distinguishes_environments_witness :
  Project_outpath Sample.top Sample.env_b1 ["app"; "prog"]
  ≠ Project_outpath Sample.top Sample.env_b2 ["app"; "prog"].
Proof.
  intros H.
  pose proof (outpath_distinguishes_environments Sample.top Sample.env_b1
                Sample.env_b2 ["app"; "prog"]) as Hd.
  assert ("b1" = "b2") as Hneq; [|discriminate Hneq].
  apply Hd; [repeat constructor|done..].
Defined.

(** ** Package-level resolution *)

Lemma split_app_head c sep' a b :
  Py.contains (String c "") a = false →
  Py.split (String c sep') (a +:+ String c sep' +:+ b)
  = a :: Py.split (String c sep') b.
Proof.
  intros Ha. induction a as [|x a IH].
  - by rewrite PyFacts.app_nil_l, PyFacts.split_match.
  - simpl in Ha. apply orb_false_iff in Ha as [Hx Ha].
    destruct (decide (c = x)) as [->|Hcx]; [done|].
    rewrite PyFacts.app_cons, PyFacts.split_nomatch.
    + by rewrite IH.
    + simpl. by rewrite decide_False.
Qed.

Lemma split_many_contains sep s a b l :
  Py.split sep s = a :: b :: l → Py.contains sep s = true.
Proof.
  intros H. destruct (Py.contains sep s) eqn:Hc; [done|].
  apply PyFacts.contains_false_split in Hc. congruence.
Qed.

Lemma find_target_unpack self ident a b c l :
  Py.split "//" ident = a :: b :: c :: l →
  find_target self ident = Raise (ValueError "unpack").
Proof.
  intros H. unfold find_target. simpl.
  by rewrite (split_many_contains _ _ _ _ _ H), H.
Qed.

(** An identifier that starts with ['//'] names the same target with the
    project's own alias in front. *)
Lemma find_target_prefix_alias self x :
  Py.contains "/" (alias self) = false →
  find_target self (alias self +:+ "//" +:+ x)
  = find_target self ("//" +:+ x).
Proof.
  intros Ha. pose proof (split_app_head "/" "/" _ x Ha) as Hs.
  pose proof (PyFacts.split_match "//" x ltac:(done)) as Hs0.
  destruct (Py.split "//" x) as [|rest [|y l]] eqn:Hx.
  - by apply PyFacts.split_nonempty in Hx.
  - apply PyFacts.split_single in Hx as Hr. subst rest.
    by rewrite (find_target_own_alias _ _ _ Hs).
  - by rewrite (find_target_unpack _ _ _ _ _ _ Hs),
      (find_target_unpack _ _ _ _ _ _ Hs0).
Qed.

(** X3.  [Package.find_target] resolves what [Package.make_absolute]
    returns: for each of the three forms of identifier that
    [make_absolute] accepts, the package resolves the identifier to the
    target the project finds under the absolute identifier. *)
Theorem Package_find_target_absolute (project : Project) (self : Package)
    (ident r : string) :
  Py.contains "/" (alias project) = false →
  make_absolute project self ident = Ok r →
  Package_find_target project self ident = find_target project r.
Proof.
  intros Ha. unfold make_absolute, Package_find_target.
  destruct (Py.startswith ":" ident); [by intros [= <-]|].
  destruct (Py.startswith "//" ident) eqn:Hs.
  - intros [= <-]. apply PyFacts.startswith_inv in Hs as [x ->].
    symmetry. by apply find_target_prefix_alias.
  - destruct (Py.contains "//" ident); [by intros [= <-]|done].
Qed.

Lemma Package_find_target_absolute_witness :
  Package_find_target Sample.top Sample.pkg_a "//a/b:foo"
  = find_target Sample.top "ROOT//a/b:foo".
Proof.
  apply (Package_find_target_absolute Sample.top Sample.pkg_a "//a/b:foo");
    reflexivity.
Defined.

Lemma contains_app sub a b : Py.contains sub (a +:+ sub +:+ b) = true.
Proof.
  induction a as [|x a IH].
  - rewrite PyFacts.app_nil_l. destruct (sub +:+ b) eqn:H; simpl;
      rewrite <- H, PyFacts.startswith_app; done.
  - rewrite PyFacts.app_cons. simpl. rewrite IH. apply orb_true_r.
Qed.

Lemma startswith_app_l c s t :
  s ≠ "" → Py.startswith (String c "") (s +:+ t)
           = Py.startswith (String c "") s.
Proof. destruct s as [|a s]; [done|]. intros _. simpl. by destruct (decide _). Qed.

(** X4.  [make_absolute] is idempotent: when the project's alias has no
    ['/'] and does not start with [':'], an identifier it returns is
    returned unchanged. *)
Theorem make_absolute_idempotent (project : Project) (self : Package)
    (ident r : string) :
  Py.contains "/" (alias project) = false →
  Py.startswith ":" (alias project) = false →
  make_absolute project self ident = Ok r →
  make_absolute project self r = Ok r.
Proof.
  intros Ha Hc.
  assert (∀ x, make_absolute project self (alias project +:+ "//" +:+ x)
               = Ok (alias project +:+ "//" +:+ x)) as Habs.
  { intros x. unfold make_absolute.
    destruct (alias project) as [|a al] eqn:Hal.
    - by rewrite !PyFacts.app_nil_l.
    - rewrite (startswith_app_l ":") by done. rewrite Hc.
      assert (Py.startswith "//" (String a al +:+ "//" +:+ x) = false) as ->.
      { rewrite PyFacts.app_cons. simpl in *.
        by destruct (decide ("/"%char = a)). }
      by rewrite contains_app. }
  unfold make_absolute at 1.
  destruct (Py.startswith ":" ident) eqn:H1; [intros [= <-]; apply Habs|].
  destruct (Py.startswith "//" ident) eqn:H2.
  - intros [= <-]. apply PyFacts.startswith_inv in H2 as [x ->]. apply Habs.
  - destruct (Py.contains "//" ident) eqn:H3; [|done].
    intros [= <-]. unfold make_absolute. by rewrite H1, H2, H3.
Qed.

Lemma make_absolute_idempotent_witness :
  make_absolute Sample.top Sample.pkg_a_b "ROOT//a/b:foo"
  = Ok "ROOT//a/b:foo".
Proof.
  apply (make_absolute_idempotent Sample.top Sample.pkg_a_b ":foo");
    reflexivity.
Defined.

(** ** Registration *)

Lemma od_get_set_eq {V} (d : odict V) k v : od_get (od_set d k v) k = Some v.
Proof.
  induction d as [|[k' v'] d IH]; simpl.
  - by rewrite decide_True.
  - destruct (decide (k' = k)) as [->|Hne]; simpl.
    + by rewrite decide_True.
    + by rewrite decide_False.
Qed.

Lemma od_get_set_ne {V} (d : odict V) k k' v :
  k ≠ k' → od_get (od_set d k v) k' = od_get d k'.
Proof.
  intros Hne. induction d as [|[k0 v0] d IH]; simpl.
  - by rewrite decide_False.
  - destruct (decide (k0 = k)) as [->|Hne0]; simpl.
    + by rewrite !(decide_False (P := k = k')).
    + destruct (decide (k0 = k')); [done|apply IH].
Qed.

Lemma od_set_fresh {V} (d : odict V) k v :
  od_get d k = None → od_set d k v = d ++ [(k, v)].
Proof.
  induction d as [|[k' v'] d IH]; [done|]. simpl.
  destruct (decide (k' = k)); [done|]. intros H. by rewrite IH.
Qed.

Lemma find_project_set_packages self pkgs a :
  find_project (set_packages self pkgs) a =
    if bool_decide (a = "") || bool_decide (a = alias self)
    then Some (set_packages self pkgs) else find_project self a.
Proof.
  rewrite (find_project_unfold (set_packages self pkgs)),
    (find_project_unfold self). simpl.
  by destruct (bool_decide (a = "") || bool_decide (a = alias self)).
Qed.

Lemma split_path_name pkg_path target_name :
  Py.contains ":" pkg_path = false → Py.contains ":" target_name = false →
  split_package_and_target ("//" +:+ pkg_path +:+ ":" +:+ target_name)
    (pkg_path +:+ ":" +:+ target_name) = Ok (pkg_path, target_name).
Proof.
  intros Hp Ht. unfold split_package_and_target.
  pose proof (PyFacts.split_app_two ":" "" _ _ Hp Ht) as Hs.
  pose proof (PyFacts.split_length ":" (pkg_path +:+ ":" +:+ target_name))
    as Hlen.
  rewrite Hs in Hlen. simpl in Hlen. injection Hlen as <-. by rewrite Hs.
Qed.

Lemma find_target_plain self rest :
  Py.contains "//" rest = false →
  find_target self ("//" +:+ rest)
  = resolve_in_project self ("//" +:+ rest) rest.
Proof.
  intros Hr. apply find_target_here.
  by rewrite (PyFacts.split_match "//" rest), PyFacts.contains_false_split.
Qed.

(** X5.  A target added to a registered package is found by the project
    under ['//path:name'], provided neither the path nor the name has a
    [':'] and the two have no ['//']; every identifier that resolved before
    resolves to the same target; adding the target again is rejected as a
    duplicate; and the addition succeeded because the name was free. *)
Theorem add_target_found (project project' : Project) (self self' : Package)
    (target : Target) :
  od_get (packages project) (relpath self) = Some self →
  add_target project self target = Ok (project', self') →
  (Py.contains ":" (relpath self) = false →
   Py.contains ":" (name target) = false →
   Py.contains "//" (relpath self +:+ ":" +:+ name target) = false →
   find_target project' ("//" +:+ relpath self +:+ ":" +:+ name target)
   = Ok target) ∧
  (∀ ident t, find_target project ident = Ok t →
              find_target project' ident = Ok t) ∧
  add_target project' self' target =
    Raise (AssertionError "duplicate target %s in package %s"
             [FmtS (name target); FmtS (relpath self)]) ∧
  od_get (targets self) (name target) = None.
Proof.
  intros Hreg. unfold add_target, Package_add_target.
  destruct (od_get (targets self) (name target)) as [t0|] eqn:Hfresh; [done|].
  rewrite bind_Ok. intros [= <- <-]. simpl.
  set (self' := {| relpath := relpath self;
                   targets := od_set (targets self) (name target) target |}).
  set (project' := set_packages project
                     (od_set (packages project) (relpath self) self')).
  assert (∀ i p n t, lookup_target project i p n = Ok t →
                     lookup_target project' i p n = Ok t) as Hlook.
  { intros i p n t. unfold lookup_target. simpl.
    destruct (decide (relpath self = p)) as [<-|Hp].
    - rewrite od_get_set_eq, Hreg. simpl.
      destruct (decide (name target = n)) as [<-|Hn].
      + by rewrite Hfresh.
      + by rewrite od_get_set_ne.
    - by rewrite od_get_set_ne. }
  split; [|split; [|split]].
  - intros Hp Hn Hs. rewrite find_target_plain by done.
    unfold resolve_in_project. rewrite split_path_name by done.
    rewrite bind_Ok. unfold lookup_target. simpl.
    by rewrite od_get_set_eq; simpl; rewrite od_get_set_eq.
  - intros ident t.
    assert (∀ i r, resolve_in_project project i r = Ok t →
                   resolve_in_project project' i r = Ok t) as Hres.
    { intros i r. unfold resolve_in_project.
      destruct (split_package_and_target i r) as [[p n]|e]; [|done].
      rewrite !bind_Ok. apply Hlook. }
    destruct (Py.split "//" ident) as [|al [|rest [|x l]]] eqn:H.
    + unfold find_target. simpl. rewrite H. by destruct (negb _).
    + unfold find_target. simpl. rewrite H. by destruct (negb _).
    + destruct (decide (al = "")) as [->|Hal].
      * rewrite !(find_target_here _ _ _ H). apply Hres.
      * rewrite !(find_target_alias _ _ _ _ H Hal).
        unfold project' at 1. rewrite find_project_set_packages.
        rewrite (bool_decide_eq_false_2 (al = "")) by done. simpl.
        rewrite (find_project_unfold project).
        rewrite (bool_decide_eq_false_2 (al = "")) by done. simpl.
        destruct (bool_decide (al = alias project)); [apply Hres|done].
    + by rewrite !(find_target_unpack _ _ _ _ _ _ H).
  - unfold add_target, Package_add_target. simpl.
    by rewrite od_get_set_eq.
  - done.
Qed.

Lemma add_target_found_witness :
  ∃ project' self',
    add_target Sample.top Sample.pkg_a (Sample.target "bar" "//a:bar")
      = Ok (project', self') ∧
    find_target project' "//a:bar" = Ok (Sample.target "bar" "//a:bar").
Proof.
  eexists _, _. split; [reflexivity|].
  refine (proj1 (add_target_found Sample.top _ Sample.pkg_a _
                   (Sample.target "bar" "//a:bar") eq_refl eq_refl)
            eq_refl eq_refl eq_refl).
Defined.

Lemma first_some_app {A} (l1 l2 : list (option A)) :
  first_some (l1 ++ l2) =
    match first_some l1 with
    | Some a => Some a
    | None => first_some l2
    end.
Proof. induction l1 as [|[a|] l1 IH]; done. Qed.

Lemma find_project_elem self a q :
  find_project self a = Some q → q ∈ projects_preorder self.
Proof.
  destruct (decide (a = "")) as [->|Ha].
  - rewrite find_project_empty. intros [= <-].
    rewrite projects_preorder_unfold. apply list_elem_of_here.
  - rewrite find_project_preorder by done.
    intros H%head_Some_elem_of. by apply list_elem_of_filter in H as [_ ?].
Qed.

Lemma find_project_alias self a q :
  a ≠ "" → find_project self a = Some q → alias q = a.
Proof.
  intros Ha. rewrite find_project_preorder by done.
  intros H%head_Some_elem_of. by apply list_elem_of_filter in H as [? _].
Qed.

Lemma find_project_absent self a :
  a ≠ "" → (∀ q, q ∈ projects_preorder self → alias q ≠ a) →
  find_project self a = None.
Proof.
  intros Ha Hno. rewrite find_project_preorder by done.
  destruct (filter _ _) as [|q l] eqn:Hf; [done|].
  assert (q ∈ filter (fun q => alias q = a) (projects_preorder self)) as Hq
    by (rewrite Hf; apply list_elem_of_here).
  apply list_elem_of_filter in Hq as [Hq1 Hq2]. by apply Hno in Hq2.
Qed.



Lemma od_get_Some_values {V} (d : odict V) k v :
  od_get d k = Some v → v ∈ od_values d.
Proof.
  induction d as [|[k' v'] d IH]; [done|]. simpl.
  destruct (decide (k' = k)).
  - intros [= ->]. apply list_elem_of_here.
  - intros H. by apply list_elem_of_further, IH.
Qed.

Lemma resolve_in_project_sound self ident rest t :
  resolve_in_project self ident rest = Ok t →
  ∃ pkg, pkg ∈ od_values (packages self) ∧ t ∈ od_values (targets pkg).
Proof.
  unfold resolve_in_project.
  destruct (split_package_and_target ident rest) as [[p n]|e]; [|done].
  rewrite bind_Ok. unfold lookup_target.
  destruct (od_get (packages self) p) as [pkg|] eqn:Hp; [|done].
  destruct (od_get (targets pkg) n) as [t'|] eqn:Hn; [|done].
  intros [= ->]. exists pkg. eauto using od_get_Some_values.
Qed.

(** X7.  The target [find_target] returns belongs to the tree: it is a
    target of a package of the project itself or of one of its
    subprojects, at any depth; with an alias, of a project that bears the
    alias. *)
Theorem find_target_in_tree (self : Project) (ident : string) (t : Target) :
  find_target self ident = Ok t →
  ∃ q pkg,
    q ∈ projects_preorder self ∧
    pkg ∈ od_values (packages q) ∧
    t ∈ od_values (targets pkg) ∧
    t ∈ Project_targets q ∧
    (∀ al rest, Py.split "//" ident = [al; rest] → al ≠ "" → alias q = al).
Proof.
  destruct (Py.split "//" ident) as [|al [|rest [|x l]]] eqn:H.
  - unfold find_target. simpl. rewrite H. by destruct (negb _).
  - unfold find_target. simpl. rewrite H. by destruct (negb _).
  - assert (∀ q, resolve_in_project q ("//" +:+ rest) rest = Ok t →
                 q ∈ projects_preorder self →
                 (al ≠ "" → alias q = al) →
                 ∃ q pkg, q ∈ projects_preorder self ∧
                   pkg ∈ od_values (packages q) ∧
                   t ∈ od_values (targets pkg) ∧ t ∈ Project_targets q ∧
                   (∀ al' rest', [al; rest] = [al'; rest'] → al' ≠ "" →
                                 alias q = al')) as Hgo.
    { intros q Hres Hq Hal.
      destruct (resolve_in_project_sound _ _ _ _ Hres) as (pkg & Hp & Ht).
      exists q, pkg. repeat (split; [done|]). split.
      - unfold Project_targets. apply list_elem_of_In, in_flat_map.
        exists pkg. by rewrite <- !list_elem_of_In.
      - by intros al' rest' [= <- <-]. }
    destruct (find_project self al) as [q|] eqn:Hq.
    + rewrite (find_target_resolves _ _ _ _ _ H Hq). intros Hres.
      apply (Hgo q Hres); [by eapply find_project_elem|].
      intros Hal. by eapply find_project_alias.
    + destruct (decide (al = "")) as [->|Hal].
      * by rewrite find_project_empty in Hq.
      * by rewrite (find_target_alias _ _ _ _ H Hal), Hq.
  - by rewrite (find_target_unpack _ _ _ _ _ _ H).
Qed.

Lemma find_target_in_tree_witness :
  ∃ q, q ∈ projects_preorder Sample.top ∧ alias q = "deep" ∧
       Sample.target "y" "deep//x:y" ∈ Project_targets q.
Proof.
  destruct (find_target_in_tree Sample.top "deep//x:y"
              (Sample.target "y" "deep//x:y") eq_refl)
    as (q & pkg & Hq & _ & _ & Ht & Ha).
  exists q. split; [exact Hq|]. split; [|exact Ht].
  by apply (Ha "deep" "x:y").
Defined.

Lemma od_values_app {V} (d1 d2 : odict V) :
  od_values (d1 ++ d2) = od_values d1 ++ od_values d2.
Proof. unfold od_values. apply fmap_app. Qed.

(** X8.  [Package(project, relpath)] registers an empty package under the
    normalised path, which was free.  The project's build files grow by
    the package's [BUILD] file, its targets are unchanged, and a second
    package whose path normalises to the same path is rejected. *)
Theorem Package_init_registers (normpath : string → string)
    (project project' : Project) (pkg : Package) (rp : string) :
  Package_init normpath project rp = Ok (project', pkg) →
  pkg = {| relpath := normpath rp; targets := [] |} ∧
  od_get (packages project) (normpath rp) = None ∧
  od_get (packages project') (normpath rp) = Some pkg ∧
  files project' = files project ++ [Package_inpath project pkg ["BUILD"]] ∧
  Project_targets project' = Project_targets project ∧
  (∀ rp2, normpath rp2 = normpath rp →
          Package_init normpath project' rp2 =
            Raise (AssertionError "duplicate package at %s"
                     [FmtS (normpath rp)])).
Proof.
  unfold Package_init, add_package. simpl.
  destruct (od_get (packages project) (normpath rp)) as [p0|] eqn:Hfresh;
    [done|].
  rewrite bind_Ok. intros [= <- <-]. split; [done|]. split; [done|].
  split; [simpl; apply od_get_set_eq|].
  rewrite od_set_fresh by done. split; [|split].
  - unfold files. simpl. rewrite od_values_app, map_app. done.
  - unfold Project_targets. simpl.
    rewrite od_values_app, flat_map_app. simpl. by rewrite app_nil_r.
  - intros rp2 ->. simpl.
    by rewrite <- (od_set_fresh _ _ {| relpath := normpath rp; targets := [] |}
                     Hfresh), od_get_set_eq.
Qed.

Lemma Package_init_registers_witness :
  ∃ project' pkg,
    Package_init id Sample.side "y" = Ok (project', pkg) ∧
    files project' = files Sample.side ++ ["/src/side/y/BUILD"].
Proof.
  eexists _, _. split; [reflexivity|].
  exact (proj1 (proj2 (proj2 (proj2
           (Package_init_registers id Sample.side _ _ "y" eq_refl))))).
Defined.

(** ** Named environments *)

(** X9.  An environment defined under a name is found under that name,
    and under the name prefixed by the project's alias, provided the name
    has no ['//'] (a name with ['//'] is read as [alias//name]); the name
    was free, and defining it again is rejected. *)
Theorem define_environment_found (named_envs : Project → gmap string Env)
    (self : Project) (envs : gmap string Env) (name : string) (env : Env) :
  define_environment envs name env = Ok (named_envs self) →
  Py.contains "//" name = false →
  find_environment named_envs self name = Ok env ∧
  (Py.contains "/" (alias self) = false →
   find_environment named_envs self (alias self +:+ "//" +:+ name) = Ok env) ∧
  envs !! name = None ∧
  (∀ env2, define_environment (named_envs self) name env2 =
             Raise (AssertionError "more than one environment named %s"
                      [FmtS name])).
Proof.
  unfold define_environment.
  destruct (envs !! name) as [e0|] eqn:Hfresh; [done|].
  intros [= Henvs] Hname.
  assert (named_envs self !! name = Some env) as Hget
    by (rewrite <- Henvs; apply lookup_insert_eq).
  split; [|split; [|split]].
  - unfold find_environment. rewrite Hname, bind_Ok, find_project_empty.
    by rewrite Hget.
  - intros Ha. unfold find_environment.
    rewrite contains_app, (PyFacts.split_app_two "/" "/" _ _ Ha Hname).
    rewrite bind_Ok, find_project_unfold.
    rewrite (bool_decide_eq_true_2 (alias self = alias self)) by done.
    rewrite orb_true_r. by rewrite Hget.
  - done.
  - intros env2. by rewrite Hget.
Qed.

Lemma define_environment_found_witness :
  find_environment (fun _ => {[ "debug" := Sample.env_lib ]}) Sample.top
    "ROOT//debug" = Ok Sample.env_lib.
Proof.
  refine (proj1 (proj2 (define_environment_found
                          (fun _ => {[ "debug" := Sample.env_lib ]})
                          Sample.top ∅ "debug" Sample.env_lib _ eq_refl))
            eq_refl).
  unfold define_environment. by rewrite lookup_empty, insert_empty.
Defined.

(** X10.  [find_environment] fails when no project of the tree bears the
    alias, and when the project found has no environment of that name; the
    second error names the identifier as given.  An identifier with more
    than one ['//'] cannot be unpacked. *)
Theorem find_environment_errors (named_envs : Project → gmap string Env)
    (self : Project) (ident al name : string) :
  Py.split "//" ident = [al; name] →
  (al ≠ "" →
   (∀ q, q ∈ projects_preorder self → alias q ≠ al) →
   find_environment named_envs self ident =
     Raise (AssertionError "No project with alias %r" [FmtR al])) ∧
  (∀ q, find_project self al = Some q → named_envs q !! name = None →
        find_environment named_envs self ident =
          Raise (AssertionError "No environment named %r" [FmtR ident])) ∧
  (∀ q env, find_project self al = Some q → named_envs q !! name = Some env →
            find_environment named_envs self ident = Ok env).
Proof.
  intros H. unfold find_environment.
  rewrite (split_two_contains _ _ _ _ H), H, bind_Ok.
  split; [|split].
  - intros Hal Hno. by rewrite find_project_absent.
  - by intros q -> ->.
  - by intros q env -> ->.
Qed.

Lemma find_environment_errors_witness :
  find_environment (fun _ => ∅) Sample.top "nowhere//debug" =
    Raise (AssertionError "No project with alias %r" [FmtR "nowhere"]).
Proof.
  refine (proj1 (find_environment_errors (fun _ => ∅) Sample.top
                   "nowhere//debug" "nowhere" "debug" eq_refl) _ _);
    [done|].
  intros q Hq Ha.
  assert (bool_decide ("nowhere" ∈ alias <$> projects_preorder Sample.top)
          = false) as Hno by (vm_compute; reflexivity).
  apply bool_decide_eq_false in Hno. apply Hno. rewrite <- Ha. by apply list_elem_of_fmap_2.
Defined.

(** ** Rules in the script *)

Lemma add_ninja_rules_ok rules registry registry' :
  add_ninja_rules registry rules = (registry', Ok ()) →
  (∀ k v, (k, v) ∈ rules → registry' !! k = Some v) ∧
  (∀ k v, registry' !! k = Some v → registry !! k = Some v ∨ (k, v) ∈ rules).
Proof.
  revert registry. induction rules as [|[k0 v0] rules IH]; intros registry.
  - intros [= <-]. split; [by intros k v ?%elem_of_nil|]. by left.
  - simpl. destruct (registry !! k0) as [w|] eqn:Hk0.
    + destruct (decide (v0 = w)) as [->|]; [|done]. intros H.
      destruct (IH _ H) as [IH1 IH2]. split.
      * intros k v [[= -> ->]|Hin]%elem_of_cons; [|by apply IH1].
        pose proof (add_ninja_rules_preserves registry rules k0 w Hk0) as Hp.
        by rewrite H in Hp.
      * intros k v Hv. destruct (IH2 k v Hv) as [?|?]; [by left|].
        right. by apply list_elem_of_further.
    + intros H. destruct (IH _ H) as [IH1 IH2]. split.
      * intros k v [[= -> ->]|Hin]%elem_of_cons; [|by apply IH1].
        pose proof (add_ninja_rules_preserves (<[k0:=v0]> registry) rules
                      k0 v0 (lookup_insert_eq _ _ _)) as Hp.
        by rewrite H in Hp.
      * intros k v Hv. destruct (IH2 k v Hv) as [Hold|?].
        -- rewrite lookup_insert in Hold.
           destruct (decide (k0 = k)) as [<-|]; [|by left].
           injection Hold as <-. right. apply list_elem_of_here.
        -- right. by apply list_elem_of_further.
Qed.

Lemma add_ninja_rules_again rules registry :
  (∀ k v, (k, v) ∈ rules → registry !! k = Some v) →
  add_ninja_rules registry rules = (registry, Ok ()).
Proof.
  induction rules as [|[k0 v0] rules IH]; intros H; [done|].
  simpl. rewrite (H k0 v0) by apply list_elem_of_here.
  rewrite decide_True by done. apply IH.
  intros k v Hin. by apply H, list_elem_of_further.
Qed.

Lemma elem_of_write_rules project k v :
  W_rule k v ∈ write_rules project ↔ ninja_rules project !! k = Some v.
Proof.
  unfold write_rules. rewrite flat_map_bind, list_elem_of_bind. split.
  - intros ([k' v'] & Hw & Hin). rewrite sorted_items_perm in Hin.
    apply elem_of_map_to_list in Hin. simpl in Hw.
    apply elem_of_cons in Hw as [[= -> ->]|Hw]; [done|].
    by apply list_elem_of_singleton in Hw.
  - intros H. exists (k, v). split; [apply list_elem_of_here|].
    rewrite sorted_items_perm. by apply elem_of_map_to_list.
Qed.

(** X11.  After [add_ninja_rules] returns, every rule it was given is
    registered with the definition given and is written to the script;
    every registered rule was registered before or is one of those given;
    and adding the same rules again changes nothing. *)
Theorem add_ninja_rules_registered (p p' : Project) (rules : odict Rule) :
  Project_add_ninja_rules p rules = (p', Ok ()) →
  (∀ k v, (k, v) ∈ rules →
          ninja_rules p' !! k = Some v ∧ W_rule k v ∈ write_rules p') ∧
  (∀ k v, ninja_rules p' !! k = Some v →
          ninja_rules p !! k = Some v ∨ (k, v) ∈ rules) ∧
  Project_add_ninja_rules p' rules = (p', Ok ()).
Proof.
  unfold Project_add_ninja_rules.
  destruct (add_ninja_rules (ninja_rules p) rules) as [registry' r] eqn:H.
  intros [= <- ->]. destruct (add_ninja_rules_ok _ _ _ H) as [H1 H2].
  split; [|split].
  - intros k v Hin. split; [by apply H1|].
    apply elem_of_write_rules. by apply H1.
  - exact H2.
  - simpl. by rewrite add_ninja_rules_again.
Qed.

Lemma add_ninja_rules_registered_witness :
  ∃ p', Project_add_ninja_rules Sample.top
          [("link_c_program", {[ "command" := "$cxx -o $out $in" ]})]
        = (p', Ok ()) ∧
        W_rule "link_c_program" {[ "command" := "$cxx -o $out $in" ]}
          ∈ write_rules p'.
Proof.
  eexists. split; [reflexivity|].
  apply (add_ninja_rules_registered Sample.top _
           [("link_c_program", {[ "command" := "$cxx -o $out $in" ]})]
           eq_refl).
  apply list_elem_of_here.
Defined.

Lemma rule_names_app s1 s2 :
  rule_names (s1 ++ s2) = rule_names s1 ++ rule_names s2.
Proof. apply omap_app. Qed.

Lemma rule_names_annotation s : Forall is_annotation s → rule_names s = [].
Proof.
  induction 1 as [|w s Hw _ IH]; [done|]. by destruct w.
Qed.

Lemma rule_names_write_rules project :
  rule_names (write_rules project)
  = (sorted_items (map_to_list (ninja_rules project))).*1.
Proof.
  unfold write_rules.
  induction (sorted_items (map_to_list (ninja_rules project))) as [|kv l IH];
    [done|].
  simpl. by rewrite IH.
Qed.

Lemma rule_names_write_group gs g : rule_names (write_group gs g) = [].
Proof.
  unfold write_group, annotation.
  assert (rule_names (map W_build g.2 ++ [W_newline]) = []) as Hb
    by (induction g.2; done).
  destruct (decide _); simpl; exact Hb.
Qed.

Lemma rule_names_write_products c : rule_names (write_products c) = [].
Proof.
  rewrite write_products_groups. generalize (groups c) at 1. intros gs.
  induction (groups c) as [|g l IH]; [done|].
  change (flat_map (write_group gs) (g :: l))
    with (write_group gs g ++ flat_map (write_group gs) l).
  by rewrite rule_names_app, IH, rule_names_write_group.
Qed.

(** X12.  The rule names of a generated script are
    [cobble_generate_ninja] followed by the registered names in increasing
    order; they are pairwise distinct exactly when no registered rule is
    named [cobble_generate_ninja]. *)
Theorem script_rule_names (project : Project) (dump_environments : bool)
    (c : Collector) :
  rule_names (script project dump_environments c)
  = "cobble_generate_ninja"
    :: (sorted_items (map_to_list (ninja_rules project))).*1 ∧
  (NoDup (rule_names (script project dump_environments c)) ↔
   ninja_rules project !! "cobble_generate_ninja" = None).
Proof.
  assert (rule_names (script project dump_environments c)
          = "cobble_generate_ninja"
            :: (sorted_items (map_to_list (ninja_rules project))).*1) as Heq.
  { unfold script. rewrite !rule_names_app, rule_names_write_rules.
    rewrite rule_names_write_products.
    rewrite (rule_names_annotation
               (if dump_environments then write_environments c else [])).
    - simpl. by rewrite app_nil_r.
    - destruct dump_environments;
        [apply write_environments_annotation|constructor]. }
  split; [done|]. rewrite Heq, NoDup_cons, sorted_items_perm.
  rewrite <- not_elem_of_dom, <- (elem_of_list_to_set (C := gset string)).
  rewrite <- dom_alt. split; [by intros [? _]|].
  intros H. split; [done|apply NoDup_fst_map_to_list].
Qed.

(** ** Groups and environments of the first pass *)

Lemma new_dicts_sublist reg ds : new_dicts reg ds `sublist_of` ds.
Proof.
  revert reg. induction ds as [|d ds IH]; intros reg; [done|]. simpl.
  destruct (reg !! output_key d); [apply sublist_cons|apply sublist_skip];
    apply IH.
Qed.

Lemma collect_entry_ok c entry c' :
  collect_entry c entry = Ok c' →
  unique_products_by_target c' =
    record_flat (unique_products_by_target c) (pe_ident entry)
      (env_digest (pe_env entry))
      (new_dicts (unique_products_by_output c) (entry_dicts entry)) ∧
  environments_by_digest c' =
    od_set (environments_by_digest c) (env_digest (pe_env entry))
      (pe_env entry).
Proof.
  rewrite collect_entry_register.
  destruct (foldM register _ _) as [reg'|e]; [|done].
  rewrite bind_Ok. by intros [= <-].
Qed.

Lemma groups_inv_step seen c entry c' :
  groups_inv seen c → collect_entry c entry = Ok c' →
  groups_inv (seen ++ [entry]) c'.
Proof.
  intros Hinv [Hbt _]%collect_entry_ok.
  assert (∀ ti emap ed flat,
            unique_products_by_target c !! ti = Some emap →
            emap !! ed = Some flat →
            flat ≠ [] ∧
            ∃ e, e ∈ seen ++ [entry] ∧ pe_ident e = ti ∧
                 env_digest (pe_env e) = ed ∧
                 flat `sublist_of` entry_dicts e) as Hold.
  { intros ti emap ed flat Hti Hed.
    destruct (Hinv _ _ _ _ Hti Hed) as (Hne & e & He & ? & ? & ?).
    split; [done|]. exists e. split; [apply elem_of_app; by left|done]. }
  intros ti emap ed flat. rewrite Hbt. unfold record_flat.
  destruct (new_dicts _ _) as [|d0 fl] eqn:Hnew; [apply Hold|].
  rewrite lookup_insert.
  destruct (decide (pe_ident entry = ti)) as [<-|Hne]; [|apply Hold].
  intros [= <-]. rewrite lookup_insert.
  destruct (decide (env_digest (pe_env entry) = ed)) as [<-|Hned].
  - intros [= <-]. split; [done|]. exists entry.
    split; [apply elem_of_app; right; apply list_elem_of_here|].
    split; [done|]. split; [done|]. rewrite <- Hnew. apply new_dicts_sublist.
  - destruct (unique_products_by_target c !! pe_ident entry) as [emap|] eqn:Hti;
      [|done].
    simpl. by apply Hold.
Qed.

Lemma envs_inv_step seen c entry c' :
  envs_inv seen c → collect_entry c entry = Ok c' →
  envs_inv (seen ++ [entry]) c'.
Proof.
  intros [Hkey Hseen] [_ Henvs]%collect_entry_ok.
  unfold envs_inv. rewrite Henvs. split.
  - intros d v.
    destruct (decide (env_digest (pe_env entry) = d)) as [<-|Hne].
    + rewrite od_get_set_eq. by intros [= <-].
    + rewrite od_get_set_ne by done. apply Hkey.
  - intros e [He|He%list_elem_of_singleton]%elem_of_app.
    + destruct (decide (env_digest (pe_env entry) = env_digest (pe_env e)))
        as [<-|Hne]; [by rewrite od_get_set_eq|].
      rewrite od_get_set_ne by done. by apply Hseen.
    + subst e. by rewrite od_get_set_eq.
Qed.

Lemma first_pass_inv (inv : list ProductEntry → Collector → Prop) :
  (∀ seen c entry c', inv seen c → collect_entry c entry = Ok c' →
                      inv (seen ++ [entry]) c') →
  ∀ entries seen c c',
    inv seen c → foldM collect_entry c entries = Ok c' →
    inv (seen ++ entries) c'.
Proof.
  intros Hstep entries.
  induction entries as [|entry entries IH]; intros seen c c' Hinv.
  - intros [= <-]. by rewrite app_nil_r.
  - rewrite foldM_cons.
    destruct (collect_entry c entry) as [c1|e] eqn:Hentry; [|done].
    rewrite bind_Ok. intros Hrest.
    rewrite (cons_middle entry seen entries), app_assoc.
    apply (IH _ c1); [|done]. by eapply Hstep.
Qed.

(** X13.  Every group of the script has at least one build step, and its
    steps are steps of one product-map entry for the group's target and
    digest, in the order in which the entry's products yield them. *)
Theorem groups_from_entries (project : Project)
    (maps : list (list ProductEntry)) (c : Collector) :
  evaluate <$> concrete_targets project = Ok <$> maps →
  collect project = Ok c →
  ∀ ti ed flat,
    (ti, ed, flat) ∈ groups c →
    flat ≠ [] ∧
    ∃ e, e ∈ concat maps ∧ pe_ident e = ti ∧ env_digest (pe_env e) = ed ∧
         flat `sublist_of` entry_dicts e.
Proof.
  intros Heval Hc ti ed flat (emap & Hti & Hed)%elem_of_groups.
  unfold collect in Hc. rewrite (collect_targets_entries _ _ _ Heval) in Hc.
  by apply (first_pass_inv groups_inv groups_inv_step (concat maps) []
              empty_collector c ltac:(done) Hc ti emap ed flat).
Qed.

Lemma groups_from_entries_witness :
  ∃ c, collect Sample.app = Ok c ∧
       ∀ ti ed flat, (ti, ed, flat) ∈ groups c → flat ≠ [].
Proof.
  destruct (is_ok_true (collect Sample.app)) as [c Hc];
    [vm_compute; reflexivity|].
  exists c. split; [exact Hc|]. intros ti ed flat Hg.
  by destruct (groups_from_entries Sample.app
                 [Sample.map_b1; Sample.map_b2] c eq_refl Hc ti ed flat Hg).
Defined.

Lemma od_get_elem {V} (d : odict V) k v : od_get d k = Some v → (k, v) ∈ d.
Proof.
  induction d as [|[k' v'] d IH]; [done|]. simpl.
  destruct (decide (k' = k)) as [->|].
  - intros [= ->]. apply list_elem_of_here.
  - intros H. by apply list_elem_of_further, IH.
Qed.

(** X14.  With [dump_environments], the listing has the comment
    [Environment <digest>] for the environment of every product-map entry
    whose digest is not ["top"], the key under which entries without an
    environment are recorded. *)
Theorem environments_listed (project : Project)
    (maps : list (list ProductEntry)) (c : Collector) (e : ProductEntry)
    (env : Env) :
  evaluate <$> concrete_targets project = Ok <$> maps →
  collect project = Ok c →
  e ∈ concat maps → pe_env e = Some env → digest env ≠ "top" →
  W_comment ("Environment " +:+ digest env) true ∈ write_environments c ∧
  W_comment ("Environment " +:+ digest env) true
    ∈ script project true c.
Proof.
  intros Heval Hc He Henv Htop.
  unfold collect in Hc. rewrite (collect_targets_entries _ _ _ Heval) in Hc.
  destruct (first_pass_inv envs_inv envs_inv_step (concat maps) []
              empty_collector c) as [Hkey Hseen];
    [split; [done|by intros ? ?%elem_of_nil]|done|].
  specialize (Hseen e He). rewrite Henv in Hseen. simpl in Hseen.
  destruct (od_get (environments_by_digest c) (digest env)) as [v|] eqn:Hget;
    [|done].
  pose proof (Hkey _ _ Hget) as Hv. destruct v as [env'|]; [|done].
  simpl in Hv.
  assert (W_comment ("Environment " +:+ digest env) true
            ∈ write_environments c) as Hin.
  { unfold write_environments. apply elem_of_app. right.
    rewrite flat_map_bind. apply list_elem_of_bind.
    exists (digest env, Some env'). split; [|by apply od_get_elem].
    simpl. apply list_elem_of_here. }
  split; [done|]. unfold script.
  do 3 (apply elem_of_app; right). apply elem_of_app. by left.
Qed.

Lemma environments_listed_witness :
  ∃ c, collect Sample.app = Ok c ∧
       W_comment "Environment b2" true ∈ write_environments c.
Proof.
  destruct (is_ok_true (collect Sample.app)) as [c Hc];
    [vm_compute; reflexivity|].
  exists c. split; [exact Hc|].
  refine (proj1 (environments_listed Sample.app
                   [Sample.map_b1; Sample.map_b2] c
                   (Sample.entry "//gen:gen" Sample.env_b2 [Sample.gen_b2])
                   Sample.env_b2 eq_refl Hc _ eq_refl _)); [|done].
  simpl. do 4 apply list_elem_of_further. apply list_elem_of_here.
Defined.

(** ** More on the regeneration inputs and on failures *)

(** X15.  Whatever the aliases in the tree, every file among the
    regeneration inputs is a build file of a project of the tree, and for
    every project of the tree the inputs hold all the build files of a
    project that bears the same alias (the first one visited, a project
    being visited after its subprojects). *)
Theorem project_files_by_alias (project : Project) :
  (∀ f, f ∈ _get_project_files project →
        ∃ q, q ∈ projects_preorder project ∧ f ∈ files q) ∧
  (∀ q, q ∈ projects_preorder project →
        ∃ q', q' ∈ projects_preorder project ∧ alias q' = alias q ∧
              ∀ f, f ∈ files q' → f ∈ _get_project_files project).
Proof.
  destruct (visit_projects_spec (projects_postorder project) [])
    as (Hall & _ & Hfrom).
  assert (∀ f, f ∈ _get_project_files project ↔
               ∃ e, e ∈ foldl visit_project [] (projects_postorder project)
                    ∧ f ∈ e.2) as Hmem.
  { intros f. unfold _get_project_files.
    rewrite sorted_strings_perm, _get_subproject_files_postorder.
    unfold od_values. rewrite concat_mjoin, list_elem_of_join. split.
    - intros (fs & Hf & (e & -> & He)%list_elem_of_fmap). by exists e.
    - intros (e & He & Hf). exists e.2. split; [done|].
      by apply list_elem_of_fmap_2. }
  split.
  - intros f (e & He & Hf)%Hmem.
    destruct (Hfrom e He) as [[]%elem_of_nil|(q & Hq & ->)].
    exists q. by rewrite <- projects_postorder_preorder.
  - intros q Hq. rewrite <- projects_postorder_preorder in Hq.
    pose proof (Hall q Hq) as (e & Hae & He)%list_elem_of_fmap.
    destruct (Hfrom e He) as [[]%elem_of_nil|(q' & Hq' & ->)].
    exists q'. split; [by rewrite <- projects_postorder_preorder|].
    split; [done|]. intros f Hf. apply Hmem. by exists (alias q', files q').
Qed.

(** X16.  Generation succeeds only if every concrete target evaluates;
    the exception of a failing evaluation comes out of generation
    unchanged when the targets before it were collected, and [build.ninja]
    is then left as it was. *)
Theorem evaluation_failure_propagates (project : Project) :
  (is_ok (collect project) = true →
   Forall (fun t => is_ok (evaluate t) = true) (concrete_targets project)) ∧
  (∀ before t after c e dump_environments (fs : FS),
     concrete_targets project = before ++ t :: after →
     foldM collect_target empty_collector before = Ok c →
     evaluate t = Raise e →
     (write_ninja_files project dump_environments fs).2 = Raise e ∧
     (write_ninja_files project dump_environments fs).1 !! final_path
       = fs !! final_path).
Proof.
  split.
  - unfold collect. generalize empty_collector.
    induction (concrete_targets project) as [|t ts IH]; intros c H;
      [constructor|].
    rewrite foldM_cons in H.
    change (collect_target c t) with
      (evaluate t ≫= fun product_map => foldM collect_entry c product_map)
      in H.
    destruct (evaluate t) as [pm|e] eqn:Ht; [|done]. rewrite bind_Ok in H.
    destruct (foldM collect_entry c pm) as [c1|e]; [|done].
    rewrite bind_Ok in H. constructor; [by rewrite Ht|by apply (IH c1)].
  - intros before t after c e dump_environments fs Hts Hbefore Ht.
    assert (collect project = Raise e) as Hc.
    { unfold collect. rewrite Hts, foldM_app, Hbefore, bind_Ok, foldM_cons.
      change (collect_target c t) with
        (evaluate t ≫= fun product_map => foldM collect_entry c product_map).
      by rewrite Ht. }
    unfold write_ninja_files. rewrite Hc. simpl.
    split; [done|]. by rewrite !lookup_insert_ne.
Qed.

Lemma evaluation_failure_propagates_witness :
  Forall (fun t => is_ok (evaluate t) = true) (concrete_targets Sample.app) ∧
  (write_ninja_files Sample.broken false ∅).2
    = Raise (EvaluationError "cycle").
Proof.
  split.
  - apply (proj1 (evaluation_failure_propagates Sample.app)).
    vm_compute. reflexivity.
  - destruct (is_ok_true
                (foldM collect_target empty_collector
                   [Sample.binary "prog1" "//app:prog1" Sample.map_b1]))
      as [c Hc]; [vm_compute; reflexivity|].
    apply (proj2 (evaluation_failure_propagates Sample.broken)
             [Sample.binary "prog1" "//app:prog1" Sample.map_b1]
             {| name := "prog2"; ident := "//app:prog2"; concrete := true;
                evaluate := Raise (EvaluationError "cycle") |}
             [] c (EvaluationError "cycle") false ∅ eq_refl Hc eq_refl).
Defined.

(** X17.  When every concrete target evaluates, generation succeeds
    exactly when any two observed build steps with the same set of outputs
    are equal; whether it succeeds does not depend on the order in which
    the steps are observed. *)
Theorem collect_succeeds_iff (project : Project)
    (maps : list (list ProductEntry)) :
  evaluate <$> concrete_targets project = Ok <$> maps →
  is_ok (collect project) = true ↔
  ∀ d1 d2, d1 ∈ observed (concat maps) → d2 ∈ observed (concat maps) →
           output_key d1 = output_key d2 → d1 = d2.
Proof.
  intros Heval.
  assert (collect project = foldM collect_entry empty_collector (concat maps))
    as Hcollect by by apply collect_targets_entries.
  pose proof (collect_entries_registry (concat maps) empty_collector) as Hreg.
  pose proof (register_all_first (observed (concat maps)) [] ∅
                (fun k => lookup_empty k)) as Hfirst.
  simpl in Hreg, Hfirst. rewrite <- Hcollect in Hreg.
  destruct (collect project) as [c|e]; rewrite Hreg in Hfirst; simpl.
  - split; [|done]. intros _ d1 d2 H1 H2 Hk.
    destruct Hfirst as [_ Hsame].
    pose proof (Hsame d1 H1) as Hd1. pose proof (Hsame d2 H2) as Hd2.
    rewrite Hk in Hd1. congruence.
  - split; [done|]. intros Hpair.
    destruct Hfirst as (first & later & H1 & H2 & H3 & _).
    apply first_with_key_Some in H1 as [Hin Hk].
    destruct H3. by apply Hpair.
Qed.

Lemma collect_succeeds_iff_witness :
  is_ok (collect Sample.clash_cxx) = false ∧
  Sample.obj ≠ Sample.obj_cxx.
Proof.
  split; [|done].
  destruct (is_ok (collect Sample.clash_cxx)) eqn:Hok; [|reflexivity].
  pose proof (proj1 (collect_succeeds_iff Sample.clash_cxx
                       [[ Sample.entry "//lib:lib" Sample.env_lib [Sample.obj];
                          Sample.entry "//app:prog1" Sample.env_b1
                            [Sample.obj_cxx] ]] eq_refl) Hok
                Sample.obj Sample.obj_cxx) as H.
  discriminate H; [apply list_elem_of_here| |reflexivity].
  apply list_elem_of_further, list_elem_of_here.
Defined.


(** ** Compiling one source file *)

Lemma slice_to_from k p : TargetC.slice_to k p +:+ Py.slice_from k p = p.
Proof.
  revert p. induction k as [|k IH]; intros [|a p]; try done.
  simpl. by rewrite PyFacts.app_cons, IH.
Qed.

Lemma length_slice_to k p :
  k ≤ String.length p → String.length (TargetC.slice_to k p) = k.
Proof.
  revert p. induction k as [|k IH]; intros [|a p] H; simpl in *; try lia.
  rewrite IH; lia.
Qed.

Lemma slice_from_app x y : Py.slice_from (String.length x) (x +:+ y) = y.
Proof. induction x as [|a x IH]; [by destruct y|done]. Qed.

Lemma slice_from_app_add x y j :
  Py.slice_from (String.length x + j) (x +:+ y) = Py.slice_from j y.
Proof. induction x as [|a x IH]; done. Qed.

Lemma slice_to_app_add x y j :
  TargetC.slice_to (String.length x + j) (x +:+ y)
  = x +:+ TargetC.slice_to j y.
Proof.
  induction x as [|a x IH]; [done|]. simpl.
  by rewrite PyFacts.app_cons, IH.
Qed.

Lemma rfind_bound c p :
  (-1 ≤ Py.rfind c p < Z.of_nat (String.length p))%Z.
Proof.
  induction p as [|a p IH]; simpl; [lia|].
  destruct (Z.leb_spec 0 (Py.rfind c p)); [lia|].
  destruct (decide (a = c)); lia.
Qed.

(** [rfind] over a concatenation. *)
Lemma rfind_app c x y :
  Py.rfind c (x +:+ y) =
    if (0 <=? Py.rfind c y)%Z
    then (Z.of_nat (String.length x) + Py.rfind c y)%Z
    else Py.rfind c x.
Proof.
  induction x as [|a x IH].
  - rewrite PyFacts.app_nil_l. simpl.
    destruct (Z.leb_spec 0 (Py.rfind c y)); [lia|].
    pose proof (rfind_bound c y). lia.
  - rewrite PyFacts.app_cons. simpl Py.rfind. rewrite IH.
    pose proof (rfind_bound c x).
    destruct (Z.leb_spec 0 (Py.rfind c y)).
    + rewrite (proj2 (Z.leb_le 0 _)) by lia. simpl String.length. lia.
    + done.
Qed.

(** A path is what precedes its base name, then the base name, which has
    no ['/']. *)
Lemma basename_decompose p :
  ∃ x, p = x +:+ Path.basename p ∧
       Z.of_nat (String.length x) = (Py.rfind "/" p + 1)%Z ∧
       Py.rfind "/" (Path.basename p) = (-1)%Z.
Proof.
  pose proof (rfind_bound "/" p) as Hb.
  set (k := Z.to_nat (Py.rfind "/" p + 1)).
  exists (TargetC.slice_to k p).
  assert (String.length (TargetC.slice_to k p) = k) as Hlen
    by (apply length_slice_to; lia).
  assert (p = TargetC.slice_to k p +:+ Path.basename p) as Hp
    by (unfold Path.basename; fold k; by rewrite slice_to_from).
  split; [done|]. split; [lia|].
  pose proof (rfind_bound "/" (Path.basename p)) as Hb'.
  destruct (Z.leb_spec 0 (Py.rfind "/" (Path.basename p))) as [Hge|]; [|lia].
  pose proof (rfind_app "/" (TargetC.slice_to k p) (Path.basename p)) as Hr.
  rewrite <- Hp, (proj2 (Z.leb_le 0 _)) in Hr by done. lia.
Qed.

(** The extension of a path is the extension of its base name. *)
Lemma splitext_basename p :
  (TargetC.splitext p).2 = (TargetC.splitext (Path.basename p)).2.
Proof.
  destruct (basename_decompose p) as (x & Hp & Hlen & Hsep).
  set (b := Path.basename p) in *. clearbody b. subst p.
  pose proof (rfind_bound "." b) as Hdb.
  pose proof (rfind_bound "." x) as Hdx.
  pose proof (rfind_app "." x b) as Hdot.
  unfold TargetC.splitext at 2. rewrite Hsep.
  change (Z.to_nat (-1 + 1)) with 0. simpl Py.slice_from.
  unfold TargetC.splitext.
  destruct (Z.leb_spec 0 (Py.rfind "." b)) as [Hj|Hj].
  - rewrite Hdot. rewrite (proj2 (Z.ltb_lt _ _)) by lia.
    rewrite (proj2 (Z.ltb_lt (-1) _)) by lia.
    replace (Z.to_nat (Py.rfind "/" (x +:+ b) + 1)) with (String.length x)
      by lia.
    replace (Z.to_nat (Z.of_nat (String.length x) + Py.rfind "." b))
      with (String.length x + Z.to_nat (Py.rfind "." b)) by lia.
    rewrite slice_from_app, slice_from_app_add.
    replace (String.length x + Z.to_nat (Py.rfind "." b) - String.length x)
      with (Z.to_nat (Py.rfind "." b) - 0) by lia.
    by destruct (TargetC.all_dots _).
  - rewrite Hdot. rewrite (proj2 (Z.ltb_ge _ _)) by lia.
    by rewrite (proj2 (Z.ltb_ge (-1) _)) by lia.
Qed.

Lemma file_type_cases ext rule keys :
  od_get TargetC._file_type_map ext = Some (rule, keys) →
  ext ∈ [".c"; ".cc"; ".cpp"; ".S"] ∧
  rule ∈ ["compile_c_obj"; "compile_cxx_obj"; "assemble_obj_pp"].
Proof.
  unfold TargetC._file_type_map. simpl.
  repeat (destruct (decide _) as [<-|_];
          [intros [= <- <-]; split;
           repeat (first [apply list_elem_of_here|apply list_elem_of_further])
          |]).
  done.
Qed.

Lemma file_type_unknown ext :
  ext ∉ [".c"; ".cc"; ".cpp"; ".S"] →
  od_get TargetC._file_type_map ext = None.
Proof.
  intros H. unfold TargetC._file_type_map. simpl.
  repeat (destruct (decide _) as [<-|_];
          [exfalso; apply H;
           repeat (first [apply list_elem_of_here|apply list_elem_of_further])
          |]).
  done.
Qed.

(** X19.  [_compile_object] accepts the sources whose extension is [.c],
    [.cc], [.cpp] or [.S] and fails on the others with a [KeyError] for the
    extension.  The product it builds takes the source as its only input,
    puts its only output at the package's output path for the source's
    base name followed by [.o], and uses a rule that [ninja_rules] of the
    module defines and that a new project registers without conflict. *)
Theorem compile_object_by_extension
    (subset_require : Env → gset string → Env) (order_only_name : string)
    (project : Project) (package : Package) (source : string) (env : Env) :
  match TargetC._compile_object subset_require order_only_name project
          package source env with
  | inr prod =>
      (TargetC.splitext source).2 ∈ [".c"; ".cc"; ".cpp"; ".S"] ∧
      TargetC.pa_inputs prod = [source] ∧
      TargetC.pa_outputs prod =
        [Package_outpath project package (TargetC.pa_env prod)
           [Path.basename source +:+ ".o"]] ∧
      is_Some (od_get TargetC.ninja_rules (TargetC.pa_rule prod)) ∧
      ∀ r b a,
        (Project_add_ninja_rules (Project_init r b a) TargetC.ninja_rules).2
          = Ok () ∧
        is_Some (ninja_rules
                   (Project_add_ninja_rules (Project_init r b a)
                      TargetC.ninja_rules).1 !! TargetC.pa_rule prod)
  | inl e =>
      e = TargetC.KeyError (TargetC.splitext source).2 ∧
      (TargetC.splitext source).2 ∉ [".c"; ".cc"; ".cpp"; ".S"]
  end.
Proof.
  unfold TargetC._compile_object.
  destruct (od_get TargetC._file_type_map (TargetC.splitext source).2)
    as [[rule keys]|] eqn:Hext.
  - destruct (file_type_cases _ _ _ Hext) as [He Hr].
    split; [done|]. split; [done|]. split; [done|]. simpl.
    assert (∀ r b a,
              (Project_add_ninja_rules (Project_init r b a)
                 TargetC.ninja_rules).2 = Ok () ∧
              is_Some (ninja_rules
                         (Project_add_ninja_rules (Project_init r b a)
                            TargetC.ninja_rules).1 !! rule)) as Hreg.
    { intros r b a.
      assert (is_Some (od_get TargetC.ninja_rules rule)) as [v Hv].
      { repeat (apply elem_of_cons in Hr as [->|Hr]; [by eexists|]).
        by apply elem_of_nil in Hr. }
      apply od_get_elem in Hv.
      rewrite Project_add_ninja_rules_registry.
      unfold Project_add_ninja_rules. simpl ninja_rules.
      destruct (add_ninja_rules _ TargetC.ninja_rules) as [reg' res] eqn:Hadd.
      assert (res = Ok ()) as ->.
      { change res with (reg', res).2. rewrite <- Hadd. by vm_compute. }
      split; [done|]. exists v.
      by apply (proj1 (add_ninja_rules_ok _ _ _ Hadd)). }
    split; [|done].
    repeat (apply elem_of_cons in Hr as [->|Hr]; [by eexists|]).
    by apply elem_of_nil in Hr.
  - split; [done|]. intros Hin.
    repeat (apply elem_of_cons in Hin as [Hin|Hin];
            [by rewrite Hin in Hext|]).
    by apply elem_of_nil in Hin.
Qed.

(** X20.  Two sources with the same base name compile to the same output
    path with the same rule in one package and environment, whatever their
    directories: [_compile_object] names the object after the base name
    alone.  The two products differ when the sources do. *)
Theorem same_basename_same_object
    (subset_require : Env → gset string → Env) (order_only_name : string)
    (project : Project) (package : Package) (s1 s2 : string) (env : Env)
    (p1 : TargetC.ProductArgs) :
  Path.basename s1 = Path.basename s2 →
  TargetC._compile_object subset_require order_only_name project package
    s1 env = inr p1 →
  ∃ p2,
    TargetC._compile_object subset_require order_only_name project package
      s2 env = inr p2 ∧
    TargetC.pa_outputs p2 = TargetC.pa_outputs p1 ∧
    TargetC.pa_rule p2 = TargetC.pa_rule p1 ∧
    TargetC.pa_env p2 = TargetC.pa_env p1 ∧
    (s1 ≠ s2 → p1 ≠ p2).
Proof.
  intros Hb. unfold TargetC._compile_object.
  rewrite (splitext_basename s1), (splitext_basename s2), Hb.
  destruct (od_get TargetC._file_type_map _) as [[rule keys]|]; [|done].
  intros [= <-]. eexists. split; [reflexivity|]. simpl.
  repeat (split; [done|]). intros Hne [= Heq]. done.
Qed.

Lemma same_basename_same_object_witness :
  ∃ p1 p2,
    TargetC._compile_object (fun env _ => env) "__order_only__" Sample.top
      Sample.pkg_a "x/main.c" Sample.env_lib = inr p1 ∧
    TargetC._compile_object (fun env _ => env) "__order_only__" Sample.top
      Sample.pkg_a "y/main.c" Sample.env_lib = inr p2 ∧
    TargetC.pa_outputs p2 = TargetC.pa_outputs p1 ∧ p1 ≠ p2.
Proof.
  destruct (same_basename_same_object (fun env _ => env) "__order_only__"
              Sample.top Sample.pkg_a "x/main.c" "y/main.c" Sample.env_lib
              _ eq_refl eq_refl) as (p2 & H2 & Hout & _ & _ & Hne).
  eexists _, p2. split; [reflexivity|]. split; [exact H2|].
  split; [exact Hout|]. by apply Hne.
Defined.

(** ** No build step twice *)

Lemma all_flats_insert_sub by_target ti ed flat :
  all_flats (<[ti := <[ed := flat]> (default ∅ (by_target !! ti))]> by_target)
    ⊆+ flat ++ all_flats by_target.
Proof.
  destruct (default ∅ (by_target !! ti) !! ed) as [old|] eqn:Hed;
    [|by rewrite all_flats_insert].
  destruct (by_target !! ti) as [emap|] eqn:Hti; [|done]. simpl in *.
  unfold all_flats. rewrite <- insert_delete_eq.
  rewrite map_to_list_insert by apply lookup_delete_eq.
  rewrite <- (map_to_list_delete by_target ti emap) by done.
  rewrite !bind_cons. simpl.
  rewrite <- (insert_delete_eq emap).
  rewrite map_to_list_insert by apply lookup_delete_eq.
  rewrite <- (map_to_list_delete emap ed old Hed).
  rewrite !bind_cons. simpl. rewrite <- !app_assoc.
  by apply submseteq_skips_l, submseteq_inserts_l.
Qed.

Lemma fmap_value_keys {K V} (f : V → K) (l : list (K * V)) :
  (∀ kv, kv ∈ l → f kv.2 = kv.1) → f <$> l.*2 = l.*1.
Proof.
  induction l as [|kv l IH]; intros H; [done|].
  rewrite !fmap_cons, H by apply list_elem_of_here. f_equal.
  apply IH. intros kv' Hkv'. by apply H, list_elem_of_further.
Qed.

Lemma flats_within_registry_step (seen : list ProductEntry) c entry c' :
  all_flats (unique_products_by_target c)
    ⊆+ (map_to_list (unique_products_by_output c)).*2 →
  collect_entry c entry = Ok c' →
  all_flats (unique_products_by_target c')
    ⊆+ (map_to_list (unique_products_by_output c')).*2.
Proof.
  intros Hinv. rewrite collect_entry_register.
  destruct (foldM register (unique_products_by_output c) (entry_dicts entry))
    as [reg'|e] eqn:Hreg; [|done].
  rewrite bind_Ok. intros [= <-]. simpl.
  destruct (register_all_ok _ _ _ Hreg) as (_ & _ & Hperm).
  rewrite Hperm. unfold record_flat.
  destruct (new_dicts _ _) as [|d0 fl]; [by rewrite app_nil_r|].
  etrans; [apply all_flats_insert_sub|].
  rewrite (comm (++)). by apply submseteq_skips_r.
Qed.

(** X21.  No two build steps of the product groups have the same set of
    outputs, whatever the product maps, and each of them is a step yielded
    by a product of some entry. *)
Theorem no_step_emitted_twice (project : Project)
    (maps : list (list ProductEntry)) (c : Collector) :
  evaluate <$> concrete_targets project = Ok <$> maps →
  collect project = Ok c →
  NoDup (output_key <$> builds_of (write_products c)) ∧
  ∀ d, d ∈ builds_of (write_products c) → d ∈ observed (concat maps).
Proof.
  intros Heval Hc.
  assert (collect project = foldM collect_entry empty_collector (concat maps))
    as Hcollect by by apply collect_targets_entries.
  pose proof (collect_entries_registry (concat maps) empty_collector) as Hreg.
  pose proof (register_all_first (observed (concat maps)) [] ∅
                (fun k => lookup_empty k)) as Hfirst.
  simpl in Hreg, Hfirst. rewrite <- Hcollect, Hc in Hreg.
  rewrite Hreg in Hfirst. destruct Hfirst as [Hlookup _].
  rewrite Hcollect in Hc.
  assert (all_flats (unique_products_by_target c)
            ⊆+ (map_to_list (unique_products_by_output c)).*2) as Hsub.
  { apply (first_pass_inv
             (fun _ c => all_flats (unique_products_by_target c)
                           ⊆+ (map_to_list (unique_products_by_output c)).*2)
             flats_within_registry_step (concat maps) [] empty_collector c);
      [|done].
    unfold all_flats. simpl. by rewrite !map_to_list_empty. }
  assert (∀ kd, kd ∈ map_to_list (unique_products_by_output c) →
                kd.2 ∈ observed (concat maps) ∧ output_key kd.2 = kd.1)
    as Hval.
  { intros [k d] H%elem_of_map_to_list. rewrite Hlookup in H.
    by apply first_with_key_Some in H. }
  split.
  - rewrite builds_of_write_products.
    apply (fmap_submseteq output_key) in Hsub.
    rewrite (fmap_value_keys output_key) in Hsub by (intros kv; apply Hval).
    apply submseteq_Permutation in Hsub as [k Hk].
    pose proof (NoDup_fst_map_to_list (unique_products_by_output c)) as Hnd.
    rewrite Hk in Hnd. by apply NoDup_app in Hnd as [? _].
  - intros d. rewrite builds_of_write_products. intros Hd.
    assert (d ∈ (map_to_list (unique_products_by_output c)).*2) as Hin.
    { apply submseteq_Permutation in Hsub as [k Hk]. rewrite Hk.
      apply elem_of_app. by left. }
    apply list_elem_of_fmap in Hin as (kd & -> & Hkd). by apply Hval.
Qed.

Lemma no_step_emitted_twice_witness :
  ∃ c, collect Sample.unmemoised = Ok c ∧
       NoDup (output_key <$> builds_of (write_products c)).
Proof.
  destruct (is_ok_true (collect Sample.unmemoised)) as [c Hc];
    [vm_compute; reflexivity|].
  exists c. split; [exact Hc|].
  apply (no_step_emitted_twice Sample.unmemoised
           [[ Sample.entry "//lib:lib" Sample.env_lib [Sample.obj];
              Sample.entry "//lib:lib" Sample.env_lib
                [Sample.obj; Sample.link_b1] ]] c eq_refl Hc).
Defined.
